(** * Equilibration-based initialisation (keyword EQUIL), the face
      velocities of the decoupled two-phase model, and the start-up of a
      simulation

    A shallow embedding of

    - [opm/core/simulator/initStateEquil.hpp]: [phaseSaturations],
      [DeckDependent::getEquil], [DeckDependent::equilnum] and the class
      [PhasePressureSaturationComputer] with [calcPressII] and [calcSat];
    - [dumux/new_decoupled/2p/diffusion/fv/fvvelocity2p.hh]: the
      constructors of [FVVelocity2P] and the body of [calculateVelocity]
      for one face: an interior face, a Dirichlet pressure boundary face
      and a Neumann boundary face;
    - [ewoms/common/start.hh]: [registerAllParameters_],
      [setupParameters_] and [start].

    Scalars.  The C++ [double] is read as an exact rational ([Q]); sums and
    differences are the exact ones and [==] is equality of rationals.
    Integers ([int]) are [Z]; [std::vector::size_type] counters are [nat].

    Effects.  A computation yields the list of calls it made to the
    property collaborators together with either an exception or a value.
    An access outside a [std::vector] is undefined in C++; here it stops
    the computation with [undefined_access].  [start] yields the list of
    its calls and outputs together with the value it returns. *)

From Stdlib Require Import ZArith QArith Lqa Lia String Ascii Bool.
From stdpp Require Import base list.

Local Open Scope Z_scope.

(* ===================================================================== *)
(** ** Exceptions, calls and the computation monad                        *)
(* ===================================================================== *)

Inductive Exn : Type :=
| runtime_error (what : string)      (* OPM_THROW(std::runtime_error, _) *)
| domain_error (what : string)       (* OPM_THROW(std::domain_error, _)  *)
| NotImplemented (what : string)     (* DUNE_THROW(NotImplemented, _)    *)
| length_error                       (* std::vector with a count too big *)
| collaborator_failure               (* raised inside a collaborator     *)
| undefined_access.                  (* vector access out of range       *)

(** Calls to the property collaborators, in program order. *)
Inductive Call : Type :=
| call_satRange (cell : Z)
| call_satFromPc (phase cell : Z) (target_pc : Q) (increasing : bool)
| call_satFromSumOfPcs (phase1 phase2 cell : Z) (target_pc : Q).

Definition M (A : Type) : Type := (list Call * (Exn + A))%type.

Definition ret {A} (a : A) : M A := ([], inr a).
Definition throw {A} (e : Exn) : M A := ([], inl e).
Definition bind {A B} (m : M A) (f : A -> M B) : M B :=
  match m with
  | (tr, inl e) => (tr, inl e)
  | (tr, inr a) => let '(tr', r) := f a in (tr ++ tr', r)
  end.
Definition emit (c : Call) : M unit := ([c], inr tt).

Notation "'do' x <- m ; k" := (bind m (fun x => k))
  (at level 10, x name, m at level 100, k at level 200).
Notation "'do' ' p <- m ; k" := (bind m (fun x => let 'p := x in k))
  (at level 10, p pattern, m at level 100, k at level 200).

Definition trace {A} (m : M A) : list Call := fst m.
Definition outcome {A} (m : M A) : Exn + A := snd m.

(** The computation ends with a value. *)
Definition returns {A} (m : M A) : Prop := exists a, outcome m = inr a.


(* ===================================================================== *)
(** ** Vectors                                                            *)
(* ===================================================================== *)

Abbreviation PVal := (list Q).             (* std::vector<double>          *)
Abbreviation PPress := (list (list Q)).    (* std::vector<PVal>            *)

(** [v[i]] as an rvalue. *)
Definition vec_at {A} (v : list A) (i : Z) : M A :=
  if i <? 0 then throw undefined_access
  else match v !! Z.to_nat i with
       | Some a => ret a
       | None => throw undefined_access
       end.

(** [v[i] = a]. *)
Definition vec_set {A} (v : list A) (i : Z) (a : A) : M (list A) :=
  if (i <? 0) || (Z.of_nat (length v) <=? i) then throw undefined_access
  else ret (<[Z.to_nat i := a]> v).

(** [t[p][i]] as an rvalue and [t[p][i] = x]. *)
Definition tab_at (t : PPress) (p i : Z) : M Q :=
  do row <- vec_at t p ; vec_at row i.
Definition tab_set (t : PPress) (p i : Z) (x : Q) : M PPress :=
  do row <- vec_at t p ;
  do row' <- vec_set row i x ;
  vec_set t p row'.

(** [x > y] on doubles. *)
Definition Qgt_bool (x y : Q) : bool := negb (Qle_bool x y).

(* ===================================================================== *)
(** ** Phases, phase usage, equilibration records and regions             *)
(* ===================================================================== *)

(** [BlackoilPhases]: [Aqua = 0], [Liquid = 1], [Vapour = 2]. *)
Inductive Phase : Type := Aqua | Liquid | Vapour.

(** [PhaseUsage]: [phase_used[]] and [phase_pos[]], indexed by phase. *)
Record PhaseUsage : Type := {
  num_phases : Z;
  phase_used : Phase -> bool;
  phase_pos : Phase -> Z
}.

(** [EquilRecord], with the field order of the initialiser in [getEquil]. *)
Record DepthPress : Type := { depth : Q; press : Q }.
Record EquilRecord : Type := {
  main : DepthPress;
  woc : DepthPress;
  goc : DepthPress
}.

(** [BlackoilPropertiesInterface], the part used here.  [satRange] fills
    [smin[]] and [smax[]] for one cell; both are indexed by phase
    position. *)
Record BlackoilPropertiesInterface : Type := {
  numPhases : Z;
  phaseUsage : PhaseUsage;
  satRange : Z -> (Z -> Q) * (Z -> Q)
}.

(** [EquilReg<RhoCalc>]: the record, the density calculator (built from
    [props] and a representative cell) and the phase usage.  The two
    [NoMixing] policies carry no data. *)
Record EquilReg : Type := {
  rec_ : EquilRecord;
  calc_props : BlackoilPropertiesInterface;
  calc_repcell : Z;
  pu_ : PhaseUsage
}.

(** Modelled from the spec: the accessors of [EquilReg], declared in
    [EquilibrationHelpers.hpp], which is absent: the datum depth, the
    water-oil contact depth and the gas-oil contact depth of the record. *)
Definition datum (reg : EquilReg) : Q := depth (main (rec_ reg)).
Definition zwoc (reg : EquilReg) : Q := depth (woc (rec_ reg)).
Definition zgoc (reg : EquilReg) : Q := depth (goc (rec_ reg)).

(** Modelled from the spec: the capillary-pressure inverters of
    [EquilibrationHelpers.hpp], which is absent.  [satFromPc props phase
    cell target_pc increasing] returns the saturation of [phase] at which
    the phase's capillary pressure equals [target_pc]; [satFromSumOfPcs
    props phase1 phase2 cell target_pc] inverts the sum of two capillary
    pressures.  [None] is a failure of the root finder (an exception). *)
Class EquilibrationHelpers : Type := {
  satFromPc : BlackoilPropertiesInterface -> Z -> Z -> Q -> bool -> option Q;
  satFromSumOfPcs :
    BlackoilPropertiesInterface -> Z -> Z -> Z -> Q -> option Q
}.

Definition of_helper {A} (c : Call) (r : option A) : M A :=
  do _ <- emit c ;
  match r with
  | Some a => ret a
  | None => throw collaborator_failure
  end.

(* ===================================================================== *)
(** ** [phaseSaturations]                                                 *)
(* ===================================================================== *)

Section PhaseSaturations.
Context {helpers : EquilibrationHelpers}.
Variable reg : EquilReg.
Variable props : BlackoilPropertiesInterface.
Variable phase_pressures : PPress.

Let water := phase_used (pu_ reg) Aqua.
Let gas := phase_used (pu_ reg) Vapour.
Let oilpos := phase_pos (pu_ reg) Liquid.
Let waterpos := phase_pos (pu_ reg) Aqua.
Let gaspos := phase_pos (pu_ reg) Vapour.

(** The body of the loop over the cell range (lines 152 to 181). *)
Definition cellStep (phase_saturations : PPress)
    (local_index : nat) (cell : Z) : M PPress :=
  let li := Z.of_nat local_index in
  do _ <- emit (call_satRange cell) ;
  let '(smin, smax) := satRange props cell in
  do '(sw, phase_saturations) <-
    (if water then
       do po <- tab_at phase_pressures oilpos li ;
       do pw <- tab_at phase_pressures waterpos li ;
       let pcov := (po - pw)%Q in
       do sw <- of_helper (call_satFromPc waterpos cell pcov false)
               (satFromPc props waterpos cell pcov false) ;
       do ps <- tab_set phase_saturations waterpos li sw ;
       ret (sw, ps)
     else ret (0%Q, phase_saturations)) ;
  do '(sg, phase_saturations) <-
    (if gas then
       do pg <- tab_at phase_pressures gaspos li ;
       do po <- tab_at phase_pressures oilpos li ;
       let pcog := (pg - po)%Q in
       let increasing := true in
       do sg <- of_helper (call_satFromPc gaspos cell pcog increasing)
               (satFromPc props gaspos cell pcog increasing) ;
       do ps <- tab_set phase_saturations gaspos li sg ;
       ret (sg, ps)
     else ret (0%Q, phase_saturations)) ;
  do '(sw, sg, phase_saturations) <-
    (if gas && water && Qgt_bool (sg + sw) 1 then
       do pg <- tab_at phase_pressures gaspos li ;
       do pw <- tab_at phase_pressures waterpos li ;
       let pcgw := (pg - pw)%Q in
       do sw <- of_helper (call_satFromSumOfPcs waterpos gaspos cell pcgw)
               (satFromSumOfPcs props waterpos gaspos cell pcgw) ;
       let sg := (1 - sw)%Q in
       do ps <- tab_set phase_saturations waterpos li sw ;
       do ps <- tab_set ps gaspos li sg ;
       ret (sw, sg, ps)
     else ret (sw, sg, phase_saturations)) ;
  tab_set phase_saturations oilpos li (1 - sw - sg)%Q.

(** The loop over the cell range, [local_index] counting from where the
    caller starts it. *)
Fixpoint cellLoop (cells : list Z) (local_index : nat)
    (phase_saturations : PPress) : M PPress :=
  match cells with
  | [] => ret phase_saturations
  | cell :: rest =>
      do ps <- cellStep phase_saturations local_index cell ;
      cellLoop rest (S local_index) ps
  end.

Definition phaseSaturations (cells : list Z) : M PPress :=
  let z0 := datum reg in
  let zwoc := zwoc reg in
  let zgoc := zgoc reg in
  if Qgt_bool zgoc z0 || Qgt_bool z0 zwoc then
    throw (runtime_error
             "Cannot initialise: the datum depth must be in the oil zone.")
  else if negb (phase_used (pu_ reg) Liquid) then
    throw (runtime_error
             "Cannot initialise: not handling water-gas cases.")
  else
    cellLoop cells 0%nat phase_pressures.
End PhaseSaturations.

(* ===================================================================== *)
(** ** The deck-dependent driver                                          *)
(* ===================================================================== *)

(** [UnstructuredGrid], the field used here. *)
Record UnstructuredGrid : Type := { number_of_cells : Z }.

(** One line of the EQUIL keyword, the fields read by [getEquil]. *)
Record EquilLine : Type := {
  datum_depth_ : Q;
  datum_depth_pressure_ : Q;
  water_oil_contact_depth_ : Q;
  oil_water_cap_pressure_ : Q;
  gas_oil_contact_depth_ : Q;
  gas_oil_cap_pressure_ : Q
}.

(** [EclipseGridParser], the methods called here; [getEQUIL_equil] is
    [getEQUIL().equil]. *)
Record EclipseGridParser : Type := {
  hasField : string -> bool;
  getIntegerValue : string -> list Z;
  getEQUIL_equil : list EquilLine
}.

(** [RegionMapping<>::numRegions()] and [RegionMapping<>::cells(r)]. *)
Record RegionMapping : Type := {
  numRegions : Z;
  cells : Z -> list Z
}.

(** Modelled from the spec: the collaborators of the driver whose code is
    absent.  [phasePressures G reg cells grav] is the hydrostatic
    integrator of [initStateEquil_impl.hpp] (one vector per active phase,
    one value per cell of the range; [None] is an exception), and
    [mkRegionMapping] is the constructor of [RegionMapping<>] from the
    cell-to-region array. *)
Class EquilCollaborators : Type := {
  phasePressures :
    UnstructuredGrid -> EquilReg -> list Z -> Q -> option PPress;
  mkRegionMapping : list Z -> RegionMapping
}.

Definition of_option {A} (r : option A) : M A :=
  match r with
  | Some a => ret a
  | None => throw collaborator_failure
  end.

(** [std::vector<T>(n, x)] and [v.assign(n, x)] with an [int] count: a
    negative count converts to a size beyond [max_size()]. *)
Definition vec_make {A} (n : Z) (x : A) : M (list A) :=
  if n <? 0 then throw length_error
  else ret (replicate (Z.to_nat n) x).

(** A [for] loop over a list of values, threading the state. *)
Fixpoint foldM {A S} (f : S -> A -> M S) (l : list A) (s : S) : M S :=
  match l with
  | [] => ret s
  | a :: rest => do s' <- f s a ; foldM f rest s'
  end.

Definition getEquil (deck : EclipseGridParser) : M (list EquilRecord) :=
  if hasField deck "EQUIL" then
    ret (map (fun rec =>
                {| main := {| depth := datum_depth_ rec;
                              press := datum_depth_pressure_ rec |};
                   woc := {| depth := water_oil_contact_depth_ rec;
                             press := oil_water_cap_pressure_ rec |};
                   goc := {| depth := gas_oil_contact_depth_ rec;
                             press := gas_oil_cap_pressure_ rec |} |})
             (getEQUIL_equil deck))
  else throw (domain_error "Deck does not provide equilibration data.").

Definition equilnum (deck : EclipseGridParser) (G : UnstructuredGrid)
    : M (list Z) :=
  if hasField deck "EQLNUM" then ret (getIntegerValue deck "EQLNUM")
  else vec_make (number_of_cells G) 0.

(** [for (c = cells.begin(), e = cells.end(); c != e; ++c, ++s) d[*c] = *s;]
    with [s] the rest of the source vector. *)
Fixpoint scatterCells (cells : list Z) (s : PVal) (d : PVal) : M PVal :=
  match cells with
  | [] => ret d
  | c :: rest =>
      match s with
      | [] => throw undefined_access
      | x :: s' => do d' <- vec_set d c x ; scatterCells rest s' d'
      end
  end.

(** [for (int p = 0, np = props.numPhases(); p < np; ++p)] around it:
    [d] is a reference to [dst[p]], [s] starts at [res[p].begin()]. *)
Definition scatterPhase (cells : list Z) (res : PPress)
    (dst : PPress) (p : Z) : M PPress :=
  do d <- vec_at dst p ;
  do s <- vec_at res p ;
  do d' <- scatterCells cells s d ;
  vec_set dst p d'.

Definition scatter (np : Z) (cells : list Z) (res dst : PPress) : M PPress :=
  foldM (scatterPhase cells res) (seqZ 0 np) dst.

Section Driver.
Context {helpers : EquilibrationHelpers} {collab : EquilCollaborators}.
Variable reg : RegionMapping.
Variable rec : list EquilRecord.
Variable props : BlackoilPropertiesInterface.
Variable G : UnstructuredGrid.
Variable grav : Q.

(** The region bound in one pass of the loop over regions. *)
Definition bindRegion (r : Z) : M (list Z * EquilReg) :=
  let cells := cells reg r in
  do repcell <- vec_at cells 0 ;
  do rec_r <- vec_at rec r ;
  ret (cells, {| rec_ := rec_r; calc_props := props;
                 calc_repcell := repcell; pu_ := phaseUsage props |}).

Definition calcPressII_region (st : PPress * PPress) (r : Z)
    : M (PPress * PPress) :=
  let '(pp_, sat_) := st in
  do '(cells, eqreg) <- bindRegion r ;
  do res <- of_option (phasePressures G eqreg cells grav) ;
  do pp_ <- scatter (numPhases props) cells res pp_ ;
  ret (pp_, sat_).

Definition calcPressII (st : PPress * PPress) : M (PPress * PPress) :=
  foldM calcPressII_region (seqZ 0 (numRegions reg)) st.

Definition calcSat_region (st : PPress * PPress) (r : Z)
    : M (PPress * PPress) :=
  let '(pp_, sat_) := st in
  do '(cells, eqreg) <- bindRegion r ;
  do press <- of_option (phasePressures G eqreg cells grav) ;
  do sat <- phaseSaturations eqreg props press cells ;
  do pp_ <- scatter (numPhases props) cells press pp_ ;
  do sat_ <- scatter (numPhases props) cells sat sat_ ;
  ret (pp_, sat_).

Definition calcSat (st : PPress * PPress) : M (PPress * PPress) :=
  foldM calcSat_region (seqZ 0 (numRegions reg)) st.
End Driver.

(** The constructor of [PhasePressureSaturationComputer]; the result is
    the pair of [press()] and [saturation()]. *)
Definition PhasePressureSaturationComputer
    {helpers : EquilibrationHelpers} {collab : EquilCollaborators}
    (props : BlackoilPropertiesInterface) (deck : EclipseGridParser)
    (G : UnstructuredGrid) (grav : Q) : M (PPress * PPress) :=
  do row <- vec_make (number_of_cells G) 0%Q ;
  do pp_ <- vec_make (numPhases props) row ;
  do sat_ <- vec_make (numPhases props) row ;
  do rec <- getEquil deck ;
  do eqlnum <- equilnum deck G ;
  let eqlmap := mkRegionMapping eqlnum in
  do st <- calcPressII eqlmap rec props G grav (pp_, sat_) ;
  calcSat eqlmap rec props G grav st.

(* ===================================================================== *)
(** ** [FVVelocity2P]                                                     *)
(* ===================================================================== *)

(** The two properties of the [TypeTag] read by [FVVelocity2P]. *)
Record TypeTag : Type := {
  EnableCompressibility : bool;
  VelocityFormulation : Z
}.

(** The constants of [TwoPCommonIndices] named in the class's enum and
    the constructor of the base class [FVPressure2P]; their code is
    absent.  [None] from the base constructor is an exception. *)
Class TwoPCommon : Type := {
  velocityW : Z;
  velocityNW : Z;
  velocityTotal : Z;
  pressureW : Z;
  pressureNW : Z;
  pressureGlobal : Z;
  FVPressure2P_ctor : TypeTag -> option unit
}.

Section FVVelocity2P.
Context {indices : TwoPCommon}.

Definition vw : Z := velocityW.
Definition vn : Z := velocityNW.
Definition vt : Z := velocityTotal.
Definition pw : Z := pressureW.
Definition pn : Z := pressureNW.
Definition pglobal : Z := pressureGlobal.
Definition other : Z := 999.

(** [static const int velocityType_]. *)
Definition velocityType_ (tag : TypeTag) : Z := VelocityFormulation tag.

(** Both constructors: the base constructor, then the two checks. *)
Definition FVVelocity2P_ctor (tag : TypeTag) : M unit :=
  do _ <- of_option (FVPressure2P_ctor tag) ;
  if EnableCompressibility tag && (velocityType_ tag =? vt) then
    throw (NotImplemented
      "Total velocity - global pressure - model cannot be used with compressible fluids!")
  else if velocityType_ tag =? other then
    throw (NotImplemented "Velocity type not supported!")
  else ret tt.

(** The velocities of one face: [velocity()[i][is]] and
    [velocitySecondPhase()[i][is]]. *)
Record FaceVelocity : Type := {
  velocity : list Q;
  velocitySecondPhase : list Q
}.

Definition vadd (u v : list Q) : list Q := zip_with Qplus u v.

(** The block "store velocities" of [calculateVelocity] at an interior
    face and at a Dirichlet boundary face (lines 343 to 359 and 535 to
    551). *)
Definition storeVelocities (tag : TypeTag) (pressureType : Z)
    (velocityW velocityNW : list Q) (fv : FaceVelocity) : FaceVelocity :=
  let fv :=
    if velocityType_ tag =? vw then
      {| velocity := velocityW; velocitySecondPhase := velocityNW |}
    else fv in
  let fv :=
    if velocityType_ tag =? vn then
      {| velocity := velocityNW; velocitySecondPhase := velocityW |}
    else fv in
  if velocityType_ tag =? vt then
    if (pressureType =? pw) || (pressureType =? pn) then
      {| velocity := vadd velocityW velocityNW;
         velocitySecondPhase := velocitySecondPhase fv |}
    else fv
  else fv.
End FVVelocity2P.

(* ===================================================================== *)
(** ** Observations on tables and traces                                  *)
(* ===================================================================== *)

(** The entry [t[p][i]], when the table has it. *)
Definition entry (t : PPress) (p : Z) (i : nat) : option Q :=
  if p <? 0 then None
  else match t !! Z.to_nat p with
       | Some row => row !! i
       | None => None
       end.

(** The table after [t[p][i] = x]. *)
Definition upd (t : PPress) (p : Z) (i : nat) (x : Q) : PPress :=
  alter (fun row => <[i := x]> row) (Z.to_nat p) t.

(** The saturation of a phase in cell [i] of a result table: the entry at
    the phase's position for an active phase, and the value [0.0] the
    code keeps in [sw] or [sg] for an inactive one. *)
Definition phaseSat (pu : PhaseUsage) (sat : PPress) (ph : Phase) (i : nat)
    : option Q :=
  if phase_used pu ph then entry sat (phase_pos pu ph) i else Some 0%Q.

(** The positions of two distinct active phases differ. *)
Definition distinct_positions (pu : PhaseUsage) : Prop :=
  forall a b : Phase,
    phase_used pu a = true -> phase_used pu b = true ->
    a <> b -> phase_pos pu a <> phase_pos pu b.

(** The table has an entry for every active phase in the first [n]
    columns. *)
Definition covers (pu : PhaseUsage) (t : PPress) (n : nat) : Prop :=
  forall ph i, phase_used pu ph = true -> (i < n)%nat ->
    0 <= phase_pos pu ph /\ is_Some (entry t (phase_pos pu ph) i).

(** The inverters never raise. *)
Definition helpers_total {helpers : EquilibrationHelpers}
    (props : BlackoilPropertiesInterface) : Prop :=
  (forall phase cell target incr,
      is_Some (satFromPc props phase cell target incr)) /\
  (forall phase1 phase2 cell target,
      is_Some (satFromSumOfPcs props phase1 phase2 cell target)).

(** The inverters return a saturation within the bounds that [satRange]
    gives for the cell and the phase inverted for. *)
Definition helpers_clamped {helpers : EquilibrationHelpers}
    (props : BlackoilPropertiesInterface) : Prop :=
  (forall phase cell target incr s,
      satFromPc props phase cell target incr = Some s ->
      (fst (satRange props cell) phase <= s
       /\ s <= snd (satRange props cell) phase)%Q) /\
  (forall phase1 phase2 cell target s,
      satFromSumOfPcs props phase1 phase2 cell target = Some s ->
      (fst (satRange props cell) phase1 <= s
       /\ s <= snd (satRange props cell) phase1)%Q).

Definition is_inversion (c : Call) : bool :=
  match c with
  | call_satRange _ => false
  | call_satFromPc _ _ _ _ => true
  | call_satFromSumOfPcs _ _ _ _ => true
  end.

Definition is_sum_inversion (c : Call) : bool :=
  match c with
  | call_satFromSumOfPcs _ _ _ _ => true
  | _ => false
  end.

(** The calls up to the next query of [satRange]. *)
Fixpoint since_query (tr : list Call) : list Call :=
  match tr with
  | [] => []
  | call_satRange _ :: _ => []
  | call :: rest => call :: since_query rest
  end.

(** The calls of pass [li] of the loop over the cells: every pass starts
    with its query of [satRange] (line 153), so they are the calls from
    query number [li] up to the next query. *)
Fixpoint cell_trace (tr : list Call) (li : nat) : list Call :=
  match tr with
  | [] => []
  | call :: rest =>
      match call, li with
      | call_satRange _, O => call :: since_query rest
      | call_satRange _, S n => cell_trace rest n
      | _, _ => cell_trace rest li
      end
  end.

(** The cells for which [satRange] was queried, in order. *)
Definition satRange_queries (tr : list Call) : list Z :=
  omap (fun c => match c with call_satRange cell => Some cell | _ => None end)
       tr.

(** What one pass of the loop body of [phaseSaturations] computes for
    the cell [c] at local index [li], as a relation: [sw0] and [sg0] are
    the saturations from the two separate inversions, [sw] and [sg] the
    ones in force when the oil saturation is assigned, [tr] the calls
    made.  Lemma [cellStep_inv] derives it from [cellStep]. *)
Definition cell_values {helpers : EquilibrationHelpers} (reg : EquilReg)
    (props : BlackoilPropertiesInterface) (pp : PPress) (li : nat) (c : Z)
    (sw0 sg0 sw sg : Q) (tr : list Call) : Prop :=
  let water := phase_used (pu_ reg) Aqua in
  let gas := phase_used (pu_ reg) Vapour in
  let oilpos := phase_pos (pu_ reg) Liquid in
  let waterpos := phase_pos (pu_ reg) Aqua in
  let gaspos := phase_pos (pu_ reg) Vapour in
  exists tr1 tr2 tr3,
    tr = call_satRange c :: tr1 ++ tr2 ++ tr3 /\
    (if water then
       exists po pw,
         entry pp oilpos li = Some po /\ entry pp waterpos li = Some pw /\
         satFromPc props waterpos c (po - pw)%Q false = Some sw0 /\
         tr1 = [call_satFromPc waterpos c (po - pw)%Q false]
     else sw0 = 0%Q /\ tr1 = []) /\
    (if gas then
       exists pg po,
         entry pp gaspos li = Some pg /\ entry pp oilpos li = Some po /\
         satFromPc props gaspos c (pg - po)%Q true = Some sg0 /\
         tr2 = [call_satFromPc gaspos c (pg - po)%Q true]
     else sg0 = 0%Q /\ tr2 = []) /\
    (if gas && water && Qgt_bool (sg0 + sw0) 1 then
       exists pg pw,
         entry pp gaspos li = Some pg /\ entry pp waterpos li = Some pw /\
         satFromSumOfPcs props waterpos gaspos c (pg - pw)%Q = Some sw /\
         sg = (1 - sw)%Q /\
         tr3 = [call_satFromSumOfPcs waterpos gaspos c (pg - pw)%Q]
     else sw = sw0 /\ sg = sg0 /\ tr3 = []).

(** The overlap correction ran in pass [li]. *)
Definition overlap_corrected (tr : list Call) (li : nat) : Prop :=
  exists call, call ∈ cell_trace tr li /\ is_sum_inversion call = true.

(** Every saturation that a returning run of [phaseSaturations] wrote for
    an active phase lies within the bounds of [satRange] for its cell. *)
Definition within_satRange {helpers : EquilibrationHelpers}
    (reg : EquilReg) (props : BlackoilPropertiesInterface)
    (pp : PPress) (cells : list Z) : Prop :=
  forall tr sat li c ph,
    phaseSaturations reg props pp cells = (tr, inr sat) ->
    cells !! li = Some c ->
    phase_used (pu_ reg) ph = true ->
    exists s,
      entry sat (phase_pos (pu_ reg) ph) li = Some s /\
      (fst (satRange props c) (phase_pos (pu_ reg) ph) <= s
       /\ s <= snd (satRange props c) (phase_pos (pu_ reg) ph))%Q.


(** [press] is the table that [phasePressures] produces for region [r],
    and [sats] the one that [phaseSaturations] produces from it. *)
Definition region_pressures {collab : EquilCollaborators}
    (rm : RegionMapping) (rec : list EquilRecord)
    (props : BlackoilPropertiesInterface) (G : UnstructuredGrid) (grav : Q)
    (r : Z) (press : PPress) : Prop :=
  exists eqreg,
    bindRegion rm rec props r = ([], inr (cells rm r, eqreg)) /\
    phasePressures G eqreg (cells rm r) grav = Some press.


(* ===================================================================== *)
(** ** Concrete collaborators and inputs                                  *)
(* ===================================================================== *)

(** Three active phases: water at position 0, oil at 1, gas at 2. *)
Definition pu3 : PhaseUsage :=
  {| num_phases := 3;
     phase_used := fun _ => true;
     phase_pos := fun ph =>
       match ph with Aqua => 0 | Liquid => 1 | Vapour => 2 end |}.

(** Water and oil: water at position 0, oil at 1; the position of the
    unused gas phase is past the last one. *)
Definition pu_wo : PhaseUsage :=
  {| num_phases := 2;
     phase_used := fun ph => match ph with Vapour => false | _ => true end;
     phase_pos := fun ph =>
       match ph with Aqua => 0 | Liquid => 1 | Vapour => 2 end |}.

(** Oil alone, at position 0. *)
Definition pu_oil : PhaseUsage :=
  {| num_phases := 1;
     phase_used := fun ph => match ph with Liquid => true | _ => false end;
     phase_pos := fun ph =>
       match ph with Aqua => 0 | Liquid => 0 | Vapour => 1 end |}.

Definition clamp (lo hi x : Q) : Q :=
  if Qle_bool x lo then lo else if Qle_bool hi x then hi else x.

(** A property model whose saturation ranges are [1/5, 1] for water,
    [1/10, 4/5] for oil and [0, 7/10] for gas, in every cell. *)
Definition linProps (pu : PhaseUsage) : BlackoilPropertiesInterface :=
  {| numPhases := num_phases pu;
     phaseUsage := pu;
     satRange := fun _ =>
       (fun pos => if pos =? 0 then 1 # 5 else if pos =? 1 then 1 # 10 else 0,
        fun pos => if pos =? 0 then 1 else if pos =? 1 then 4 # 5
                   else 7 # 10)%Q |}.

(** Inverters for the linear curves [pc_ow(sw) = 1 - sw] and
    [pc_go(sg) = sg], clamped to the saturation range of the phase. *)
Definition linHelpers : EquilibrationHelpers :=
  {| satFromPc := fun props phase cell target increasing =>
       let '(smin, smax) := satRange props cell in
       Some (clamp (smin phase) (smax phase)
               (if increasing then target else 1 - target)%Q);
     satFromSumOfPcs := fun props phase1 phase2 cell target =>
       let '(smin, smax) := satRange props cell in
       Some (clamp (smin phase1) (smax phase1) (1 - target / 2)%Q) |}.

(** Inverters that always raise. *)
Definition failingHelpers : EquilibrationHelpers :=
  {| satFromPc := fun _ _ _ _ _ => None;
     satFromSumOfPcs := fun _ _ _ _ _ => None |}.

(** A region with the datum at 2000, the water-oil contact at 2200 and
    the gas-oil contact at 1800. *)
Definition oilZoneRecord : EquilRecord :=
  {| main := {| depth := 2000; press := 200 |};
     woc := {| depth := 2200; press := 0 |};
     goc := {| depth := 1800; press := 0 |} |}.

Definition demoReg (pu : PhaseUsage) : EquilReg :=
  {| rec_ := oilZoneRecord; calc_props := linProps pu;
     calc_repcell := 0; pu_ := pu |}.

(** The same with the datum below the water-oil contact. *)
Definition badDatumReg (pu : PhaseUsage) : EquilReg :=
  {| rec_ := {| main := {| depth := 2300; press := 200 |};
                woc := {| depth := 2200; press := 0 |};
                goc := {| depth := 1800; press := 0 |} |};
     calc_props := linProps pu; calc_repcell := 0; pu_ := pu |}.

(** Water and gas without oil. *)
Definition pu_wg : PhaseUsage :=
  {| num_phases := 2;
     phase_used := fun ph => match ph with Liquid => false | _ => true end;
     phase_pos := fun ph =>
       match ph with Aqua => 0 | Liquid => 1 | Vapour => 1 end |}.

(** Pressures of two cells, rows water, oil, gas.  In the first cell the
    two inversions give [sw = 1/2] and [sg = 3/10]; in the second they
    give [sw = 2/5] and [sg = 7/10], whose sum exceeds one. *)
Definition demoPress : PPress :=
  [ [0; 0]; [1 # 2; 3 # 5]; [4 # 5; 3 # 2] ]%Q.

Definition demoCells : list Z := [0; 1].

(** The run of [phaseSaturations] on these inputs, with its calls and
    its result. *)
Definition demoRun3 : M PPress :=
  phaseSaturations (helpers := linHelpers)
    (demoReg pu3) (linProps pu3) demoPress demoCells.
Definition demoTrace3 : list Call := trace demoRun3.
Definition demoSat3 : PPress :=
  match outcome demoRun3 with inr sat => sat | inl _ => [] end.

(** A water-oil run and a pure-oil run; the pure-oil one with inverters
    that would raise when called. *)
Definition demoRunWO : M PPress :=
  phaseSaturations (helpers := linHelpers)
    (demoReg pu_wo) (linProps pu_wo) [ [0; 0]; [1 # 2; 3 # 5] ]%Q demoCells.
Definition demoSatWO : PPress :=
  match outcome demoRunWO with inr sat => sat | inl _ => [] end.
Definition demoRunOil : M PPress :=
  phaseSaturations (helpers := failingHelpers)
    (demoReg pu_oil) (linProps pu_oil) [ [200; 201] ]%Q demoCells.

(** A region mapping: region [r] holds the cells whose entry of the
    array is [r], in increasing order; the number of regions is the
    largest entry plus one. *)
Definition cellsOf (eqlnum : list Z) (r : Z) : list Z :=
  filter (fun c => eqlnum !! Z.to_nat c = Some r)
         (seqZ 0 (Z.of_nat (length eqlnum))).

(** Collaborators of the driver: pressures that are the datum pressure
    plus an offset per phase (water, oil, gas) plus a term linear in the
    cell index, and the region mapping above. *)
Definition demoCollab : EquilCollaborators :=
  {| phasePressures := fun G reg cells grav =>
       Some (map (fun offset : Q =>
                    map (fun c : Z =>
                           press (main (rec_ reg)) + offset
                           + inject_Z c * grav)%Q cells)
                 [0; 3 # 5; 4 # 5]%Q);
     mkRegionMapping := fun eqlnum =>
       {| numRegions := foldr Z.max (-1) eqlnum + 1;
          cells := cellsOf eqlnum |} |}.

Definition demoLine (p0 : Q) : EquilLine :=
  {| datum_depth_ := 2000; datum_depth_pressure_ := p0;
     water_oil_contact_depth_ := 2200; oil_water_cap_pressure_ := 0;
     gas_oil_contact_depth_ := 1800; gas_oil_cap_pressure_ := 0 |}.

(** A deck with two EQUIL records and the region array [0; 1; 0], one
    without the region array, and a grid of three cells. *)
Definition demoDeck : EclipseGridParser :=
  {| hasField := fun name =>
       String.eqb name "EQUIL" || String.eqb name "EQLNUM";
     getIntegerValue := fun _ => [0; 1; 0];
     getEQUIL_equil := [demoLine 200; demoLine 300] |}.

Definition demoDeckNoRegions : EclipseGridParser :=
  {| hasField := fun name => String.eqb name "EQUIL";
     getIntegerValue := fun _ => [];
     getEQUIL_equil := [demoLine 200] |}.

Definition demoGrid : UnstructuredGrid := {| number_of_cells := 3 |}.

Definition demoComputer : M (PPress * PPress) :=
  PhasePressureSaturationComputer (helpers := linHelpers)
    (collab := demoCollab) (linProps pu3) demoDeck demoGrid (1 # 10).


Definition demoRegions : RegionMapping :=
  mkRegionMapping (EquilCollaborators := demoCollab) [0; 1; 0].
Definition demoPressField : PPress :=
  match outcome demoComputer with inr st => fst st | inl _ => [] end.
Definition demoSatField : PPress :=
  match outcome demoComputer with inr st => snd st | inl _ => [] end.

(** The three velocity choices are pairwise distinct and none of them is
    the sentinel [other]. *)
Definition indices_wf {indices : TwoPCommon} : Prop :=
  vw <> vn /\ vw <> vt /\ vn <> vt /\
  vw <> other /\ vn <> other /\ vt <> other.

(** The formulation is one of the enumerated water, nonwetting and total
    choices. *)
Definition enumerated {indices : TwoPCommon} (tag : TypeTag) : Prop :=
  velocityType_ tag = vw \/ velocityType_ tag = vn \/ velocityType_ tag = vt.

(** The indices as the comment on [velocityType_] gives them (line 149:
    0 is [v_w], 1 is [v_n], 2 is [v_t]), the pressure indices likewise,
    and a base constructor that returns. *)
Definition dumuxIndices : TwoPCommon :=
  {| velocityW := 0; velocityNW := 1; velocityTotal := 2;
     pressureW := 0; pressureNW := 1; pressureGlobal := 2;
     FVPressure2P_ctor := fun _ => Some tt |}.

Definition tagOf (compressible : bool) (formulation : Z) : TypeTag :=
  {| EnableCompressibility := compressible;
     VelocityFormulation := formulation |}.


(** [p] is the position of an active phase. *)
Definition active_position (pu : PhaseUsage) (p : Z) : Prop :=
  exists ph, phase_used pu ph = true /\ phase_pos pu ph = p.

(** A pressure table with a fourth row and a third column, run over the
    two cells of [demoCells]; and the second cell of [demoPress] alone. *)
Definition demoPressWide : PPress :=
  [ [0; 0; 7]; [1 # 2; 3 # 5; 8]; [4 # 5; 3 # 2; 9]; [10; 11; 12] ]%Q.
Definition demoRunWide : M PPress :=
  phaseSaturations (helpers := linHelpers)
    (demoReg pu3) (linProps pu3) demoPressWide demoCells.
Definition demoSatWide : PPress :=
  match outcome demoRunWide with inr sat => sat | inl _ => [] end.

Definition demoPressSingle : PPress := [ [0]; [3 # 5]; [3 # 2] ]%Q.
Definition demoRunSingle : M PPress :=
  phaseSaturations (helpers := linHelpers)
    (demoReg pu3) (linProps pu3) demoPressSingle [1].
Definition demoSatSingle : PPress :=
  match outcome demoRunSingle with inr sat => sat | inl _ => [] end.

(** A grid of four cells for the deck whose region array has three
    entries: the last cell is in no region. *)
Definition demoGrid4 : UnstructuredGrid := {| number_of_cells := 4 |}.
Definition demoComputer4 : M (PPress * PPress) :=
  PhasePressureSaturationComputer (helpers := linHelpers)
    (collab := demoCollab) (linProps pu3) demoDeck demoGrid4 (1 # 10).


(** The table has [rows] rows of [cols] entries each. *)
Definition has_shape (t : PPress) (rows cols : Z) : Prop :=
  Z.of_nat (length t) = rows /\
  Forall (fun row => Z.of_nat (length row) = cols) t.

(* ===================================================================== *)
(** ** [FVVelocity2P::calculateVelocity], face by face                    *)
(* ===================================================================== *)

(** [Dune::FieldVector]: [v *= a], [v /= a] and the scalar product
    [u * v]; [u += v] is [vadd]. *)
Definition vscale (v : list Q) (a : Q) : list Q := map (fun x => x * a)%Q v.
Definition vdiv (v : list Q) (a : Q) : list Q := map (fun x => x / a)%Q v.
Definition vdot (u v : list Q) : Q := foldl Qplus 0%Q (zip_with Qmult u v).

(** [A.mv(x, y)]: [y = A x]. *)
Definition mv (A : list (list Q)) (x : list Q) : list Q :=
  map (fun row => vdot row x) A.

(** The cell values read from [variables()] for one cell (lines 171 to
    178 and 255 to 262). *)
Record CellData : Type := {
  cellPress : Q;        (* pressure()[i]               *)
  cellPc : Q;           (* capillaryPressure(i)        *)
  lambdaW_ : Q;         (* mobilityWetting(i)          *)
  lambdaNW_ : Q;        (* mobilityNonwetting(i)       *)
  fractionalW_ : Q;     (* fracFlowFuncWetting(i)      *)
  fractionalNW_ : Q;    (* fracFlowFuncNonwetting(i)   *)
  densityW_ : Q;        (* densityWetting(i)           *)
  densityNW_ : Q        (* densityNonwetting(i)        *)
}.

(** One entry of the harmonic mean of the permeabilities (lines 245 to
    248); the mean starts as the zero matrix. *)
Definition harmonicEntry (kI kJ : Q) : Q :=
  if negb (Qeq_bool kI 0) && negb (Qeq_bool kJ 0)
  then (2 * kI * kJ / (kI + kJ))%Q
  else 0%Q.

Definition meanPermeability (KI KJ : list (list Q)) : list (list Q) :=
  zip_with (zip_with harmonicEntry) KI KJ.

(** The upwinding of a cell value by the sign of a potential, as for
    [(potentialW > 0.) ? densityWI : densityWJ] followed by
    [(potentialW == 0.) ? 0.5 * (densityWI + densityWJ) : densityW]. *)
Definition upwind (potential vI vJ : Q) : Q :=
  let v := if Qgt_bool potential 0 then vI else vJ in
  if Qeq_bool potential 0 then ((1 # 2) * (vI + vJ))%Q else v.

(** The constants [saturationW] and [saturationNW] of
    [TwoPCommonIndices], whose code is absent. *)
Class TwoPSaturationIndices : Type := {
  saturationW : Z;
  saturationNW : Z
}.

(** [DUNE_THROW(RangeError, _)]. *)
Inductive DuneError : Type := RangeError (what : string).

Section FaceComputation.
Context {indices : TwoPCommon} {satIndices : TwoPSaturationIndices}.

Definition Sw : Z := saturationW.
Definition Sn : Z := saturationNW.

(** The potentials of an interior face (lines 264 to 298): the stored
    potentials choose the densities, the pressure type chooses the
    pressure part, and the gravity part is added. *)
Definition potentials (pressureType : Z) (gravity unitDistVec : list Q)
    (dist : Q) (I J : CellData) (storedW storedNW : Q) : Q * Q :=
  let pressI := cellPress I in let pressJ := cellPress J in
  let pcI := cellPc I in let pcJ := cellPc J in
  let potentialW := storedW in
  let potentialNW := storedNW in
  let densityW := upwind potentialW (densityW_ I) (densityW_ J) in
  let densityNW := upwind potentialNW (densityNW_ I) (densityNW_ J) in
  let '(potentialW, potentialNW) :=
    if pressureType =? pw then
      ((pressI - pressJ) / dist, (pressI - pressJ + pcI - pcJ) / dist)%Q
    else (potentialW, potentialNW) in
  let '(potentialW, potentialNW) :=
    if pressureType =? pn then
      ((pressI - pressJ - pcI + pcJ) / dist, (pressI - pressJ) / dist)%Q
    else (potentialW, potentialNW) in
  let '(potentialW, potentialNW) :=
    if pressureType =? pglobal then
      ((pressI - pressJ
        - (1 # 2) * (fractionalNW_ I + fractionalNW_ J) * (pcI - pcJ)) / dist,
       (pressI - pressJ
        + (1 # 2) * (fractionalW_ I + fractionalW_ J) * (pcI - pcJ)) / dist)%Q
    else (potentialW, potentialNW) in
  ((potentialW + densityW * vdot unitDistVec gravity)%Q,
   (potentialNW + densityNW * vdot unitDistVec gravity)%Q).

(** The velocities of an interior face from the new potentials (lines 300
    to 359), ending with the store of [storeVelocities]. *)
Definition interiorVelocities (tag : TypeTag) (pressureType : Z)
    (gravity unitDistVec permeability : list Q) (dist : Q)
    (I J : CellData) (potentialW potentialNW : Q) (fv : FaceVelocity)
    : FaceVelocity :=
  let pressI := cellPress I in let pressJ := cellPress J in
  let pcI := cellPc I in let pcJ := cellPc J in
  let lambdaW := upwind potentialW (lambdaW_ I) (lambdaW_ J) in
  let lambdaNW := upwind potentialNW (lambdaNW_ I) (lambdaNW_ J) in
  let densityW := upwind potentialW (densityW_ I) (densityW_ J) in
  let densityNW := upwind potentialNW (densityNW_ I) (densityNW_ J) in
  let velocityW := permeability in
  let velocityNW := permeability in
  let gravityTermW :=
    vscale unitDistVec (vdot gravity permeability * (lambdaW * densityW)) in
  let gravityTermNW :=
    vscale unitDistVec
           (vdot gravity permeability * (lambdaNW * densityNW)) in
  let '(velocityW, velocityNW) :=
    if pressureType =? pw then
      (vadd (vscale velocityW (lambdaW * (pressI - pressJ) / dist))
            gravityTermW,
       vadd (vscale velocityNW
               (lambdaNW * (pressI - pressJ) / dist
                + (1 # 2) * (lambdaNW_ I + lambdaNW_ J) * (pcI - pcJ) / dist))
            gravityTermNW)
    else (velocityW, velocityNW) in
  let '(velocityW, velocityNW) :=
    if pressureType =? pn then
      (vadd (vscale velocityW
               (lambdaW * (pressI - pressJ) / dist
                - (1 # 2) * (lambdaW_ I + lambdaW_ J) * (pcI - pcJ) / dist))
            gravityTermW,
       vadd (vscale velocityNW (lambdaNW * (pressI - pressJ) / dist))
            gravityTermNW)
    else (velocityW, velocityNW) in
  let fv :=
    if pressureType =? pglobal then
      {| velocity :=
           vadd (vadd (vscale permeability
                         ((lambdaW + lambdaNW) * (pressI - pressJ) / dist))
                      gravityTermW)
                gravityTermNW;
         velocitySecondPhase := velocitySecondPhase fv |}
    else fv in
  storeVelocities tag pressureType velocityW velocityNW fv.

(** An interior face as a whole: the new potentials, which are stored,
    and the velocities. *)
Definition interiorFace (tag : TypeTag) (pressureType : Z)
    (gravity unitDistVec permeability : list Q) (dist : Q)
    (I J : CellData) (storedW storedNW : Q) (fv : FaceVelocity)
    : Q * Q * FaceVelocity :=
  let '(potentialW, potentialNW) :=
    potentials pressureType gravity unitDistVec dist I J storedW storedNW in
  (potentialW, potentialNW,
   interiorVelocities tag pressureType gravity unitDistVec permeability
     dist I J potentialW potentialNW fv).

(** The saturation at a boundary face (lines 388 to 396) and the phase
    saturations and pressures at a Dirichlet pressure boundary (lines 400
    to 432). *)
Definition satBound (satIsDirichlet : bool) (dirichletSat saturationI : Q)
    : Q :=
  if satIsDirichlet then dirichletSat else saturationI.

Definition boundarySaturations (saturationType : Z) (satBound : Q)
    : DuneError + (Q * Q) :=
  if saturationType =? Sw then inr (satBound, (1 - satBound)%Q)
  else if saturationType =? Sn then inr ((1 - satBound)%Q, satBound)
  else inl (RangeError "saturation type not implemented").

Definition boundaryPressures (pressureType : Z) (pressBound pcBound : Q)
    : Q * Q :=
  let pressW := 0%Q in
  let pressNW := 0%Q in
  if pressureType =? pw then (pressBound, (pressBound + pcBound)%Q)
  else if pressureType =? pn then ((pressBound - pcBound)%Q, pressBound)
  else (pressW, pressNW).

(** A Neumann boundary face (lines 556 to 582): [J] is the pair of the
    two phase fluxes. *)
Definition neumannFace (tag : TypeTag) (compressibility : bool)
    (unitDistVec : list Q) (Jwetting Jnonwetting : Q) (I : CellData)
    (fv : FaceVelocity) : FaceVelocity :=
  let velocityW := vscale unitDistVec Jwetting in
  let velocityNW := vscale unitDistVec Jnonwetting in
  let '(velocityW, velocityNW) :=
    if negb compressibility then
      (vdiv velocityW (densityW_ I), vdiv velocityNW (densityNW_ I))
    else (velocityW, velocityNW) in
  let fv :=
    if velocityType_ tag =? vw then
      {| velocity := velocityW; velocitySecondPhase := velocityNW |}
    else fv in
  let fv :=
    if velocityType_ tag =? vn then
      {| velocity := velocityNW; velocitySecondPhase := velocityW |}
    else fv in
  if velocityType_ tag =? vt then
    {| velocity := vadd velocityW velocityNW;
       velocitySecondPhase := velocitySecondPhase fv |}
  else fv.
End FaceComputation.

(** The pressure types are pairwise distinct, and so are the saturation
    types. *)
Definition pressure_indices_wf {indices : TwoPCommon} : Prop :=
  pw <> pn /\ pw <> pglobal /\ pn <> pglobal.

(** Two vectors are equal as vectors of rationals. *)
Definition veq (u v : list Q) : Prop := Forall2 Qeq u v.

(** The saturation indices of the enum, 0 for [Sw] and 1 for [Sn]. *)
Definition dumuxSatIndices : TwoPSaturationIndices :=
  {| saturationW := 0; saturationNW := 1 |}.

(** Two cells and a face between them, with the gravity pointing down. *)
Definition cellI : CellData :=
  {| cellPress := 10; cellPc := 2; lambdaW_ := 3; lambdaNW_ := 1;
     fractionalW_ := 3 # 4; fractionalNW_ := 1 # 4;
     densityW_ := 1000; densityNW_ := 800 |}.
Definition cellJpc : CellData :=
  {| cellPress := 8; cellPc := 1; lambdaW_ := 2; lambdaNW_ := 2;
     fractionalW_ := 1 # 2; fractionalNW_ := 1 # 2;
     densityW_ := 1000; densityNW_ := 700 |}.
Definition demoGravity : list Q := [0; - (981 # 100)]%Q.
Definition demoUnitDist : list Q := [1; 0]%Q.
Definition demoPermeability : list Q := [1 # 2; 0]%Q.
Definition noVelocity : FaceVelocity :=
  {| velocity := [0; 0]%Q; velocitySecondPhase := [0; 0]%Q |}.

(** [-v], and the vectorised permeability of an interior face (lines 238
    to 253): the mean permeability applied to the unit distance vector. *)
Definition vneg (v : list Q) : list Q := map Qopp v.

Definition facePermeability (KI KJ : list (list Q)) (unitDistVec : list Q)
    : list Q :=
  mv (meanPermeability KI KJ) unitDistVec.

(** The cell data with the pressure of the nonwetting phase, the
    pressure plus the capillary pressure, as the pressure. *)
Definition nonwettingPressure (c : CellData) : CellData :=
  {| cellPress := cellPress c + cellPc c; cellPc := cellPc c;
     lambdaW_ := lambdaW_ c; lambdaNW_ := lambdaNW_ c;
     fractionalW_ := fractionalW_ c; fractionalNW_ := fractionalNW_ c;
     densityW_ := densityW_ c; densityNW_ := densityNW_ c |}.


Definition demoK : list (list Q) := [[1 # 2; 0]; [0; 1 # 2]]%Q.
Definition demoKJ : list (list Q) := [[1 # 4; 0]; [0; 1]]%Q.

(** ** A Dirichlet pressure boundary face (lines 398 to 552)             *)

(** The problem at one boundary face: the boundary pressure, the
    capillary pressure and the mobilities of the material law, and the
    densities of the two fluids, each with and without a pressure; their
    code is absent. *)
Class BoundaryProblem : Type := {
  dirichletPress : Q;
  pC : Q -> Q;
  temperature : Q;
  wettingDensity : Q -> Q;
  wettingDensityAt : Q -> Q -> Q;
  nonwettingDensity : Q -> Q;
  nonwettingDensityAt : Q -> Q -> Q;
  mobW : Q -> Q -> Q;
  mobWAt : Q -> Q -> Q -> Q;
  mobN : Q -> Q -> Q;
  mobNAt : Q -> Q -> Q -> Q
}.

(** The values at the boundary (lines 417, 418 and 437 to 454). *)
Record BoundaryData : Type := {
  pressBound : Q;
  pcBound : Q;
  lambdaWBound : Q;
  lambdaNWBound : Q;
  densityWBound : Q;
  densityNWBound : Q
}.

Section DirichletFace.
Context {indices : TwoPCommon} {satIndices : TwoPSaturationIndices}.

(** Lines 400 to 454: the phase saturations, the boundary pressure and
    the capillary pressure, the phase pressures, and the densities and
    mobilities with or without compressibility. *)
Definition dirichletData {problem : BoundaryProblem}
    (saturationType pressureType : Z) (compressibility : bool)
    (satBound : Q) : DuneError + BoundaryData :=
  match boundarySaturations saturationType satBound with
  | inl e => inl e
  | inr (satW, satNW) =>
    let pressBound := dirichletPress in
    let pcBound := pC satW in
    let '(pressW, pressNW) :=
      boundaryPressures pressureType pressBound pcBound in
    let temperature := temperature in
    if compressibility then
      let densityWBound := wettingDensityAt temperature pressW in
      let densityNWBound := nonwettingDensityAt temperature pressNW in
      inr {| pressBound := pressBound; pcBound := pcBound;
             lambdaWBound :=
               (mobWAt satW temperature pressW * densityWBound)%Q;
             lambdaNWBound :=
               (mobNAt satNW temperature pressNW * densityNWBound)%Q;
             densityWBound := densityWBound;
             densityNWBound := densityNWBound |}
    else
      inr {| pressBound := pressBound; pcBound := pcBound;
             lambdaWBound := mobW satW temperature;
             lambdaNWBound := mobN satNW temperature;
             densityWBound := wettingDensity temperature;
             densityNWBound := nonwettingDensity temperature |}
  end.

(** Lines 456 to 490: the potentials. *)
Definition dirichletPotentials (pressureType : Z)
    (gravity unitDistVec : list Q) (dist : Q) (I : CellData)
    (B : BoundaryData) (storedW storedNW : Q) : Q * Q :=
  let pressI := cellPress I in let pcI := cellPc I in
  let potentialW := storedW in
  let potentialNW := storedNW in
  let densityW := upwind potentialW (densityW_ I) (densityWBound B) in
  let densityNW := upwind potentialNW (densityNW_ I) (densityNWBound B) in
  let '(potentialW, potentialNW) :=
    if pressureType =? pw then
      ((pressI - pressBound B) / dist,
       (pressI + pcI - pressBound B - pcBound B) / dist)%Q
    else (potentialW, potentialNW) in
  let '(potentialW, potentialNW) :=
    if pressureType =? pn then
      ((pressI - pcI - pressBound B + pcBound B) / dist,
       (pressI - pressBound B) / dist)%Q
    else (potentialW, potentialNW) in
  let '(potentialW, potentialNW) :=
    if pressureType =? pglobal then
      ((pressI - pressBound B
        - fractionalNW_ I * (pcI - pcBound B)) / dist,
       (pressI - pressBound B
        + fractionalW_ I * (pcI - pcBound B)) / dist)%Q
    else (potentialW, potentialNW) in
  ((potentialW + densityW * vdot unitDistVec gravity)%Q,
   (potentialNW + densityNW * vdot unitDistVec gravity)%Q).

(** Lines 492 to 551: the velocities from the new potentials. *)
Definition dirichletVelocities (tag : TypeTag) (pressureType : Z)
    (gravity unitDistVec permeability : list Q) (dist : Q)
    (I : CellData) (B : BoundaryData) (potentialW potentialNW : Q)
    (fv : FaceVelocity) : FaceVelocity :=
  let pressI := cellPress I in let pcI := cellPc I in
  let lambdaW := upwind potentialW (lambdaW_ I) (lambdaWBound B) in
  let lambdaNW := upwind potentialNW (lambdaNW_ I) (lambdaNWBound B) in
  let densityW := upwind potentialW (densityW_ I) (densityWBound B) in
  let densityNW := upwind potentialNW (densityNW_ I) (densityNWBound B) in
  let velocityW := permeability in
  let velocityNW := permeability in
  let gravityTermW :=
    vscale unitDistVec (vdot gravity permeability * (lambdaW * densityW)) in
  let gravityTermNW :=
    vscale unitDistVec
           (vdot gravity permeability * (lambdaNW * densityNW)) in
  let '(velocityW, velocityNW) :=
    if pressureType =? pw then
      (vadd (vscale velocityW (lambdaW * (pressI - pressBound B) / dist))
            gravityTermW,
       vadd (vscale velocityNW
               (lambdaNW * (pressI - pressBound B) / dist
                + (1 # 2) * (lambdaNW_ I + lambdaNWBound B)
                  * (pcI - pcBound B) / dist))
            gravityTermNW)
    else (velocityW, velocityNW) in
  let '(velocityW, velocityNW) :=
    if pressureType =? pn then
      (vadd (vscale velocityW
               (lambdaW * (pressI - pressBound B) / dist
                - (1 # 2) * (lambdaW_ I + lambdaWBound B)
                  * (pcI - pcBound B) / dist))
            gravityTermW,
       vadd (vscale velocityNW (lambdaNW * (pressI - pressBound B) / dist))
            gravityTermNW)
    else (velocityW, velocityNW) in
  let fv :=
    if pressureType =? pglobal then
      {| velocity :=
           vadd (vadd (vscale permeability
                         ((lambdaW + lambdaNW) * (pressI - pressBound B)
                          / dist))
                      gravityTermW)
                gravityTermNW;
         velocitySecondPhase := velocitySecondPhase fv |}
    else fv in
  storeVelocities tag pressureType velocityW velocityNW fv.

(** The Dirichlet face as a whole: the new potentials, which are stored,
    and the velocities. *)
Definition dirichletFace (tag : TypeTag) (pressureType : Z)
    (gravity unitDistVec permeability : list Q) (dist : Q)
    (I : CellData) (B : BoundaryData) (storedW storedNW : Q)
    (fv : FaceVelocity) : Q * Q * FaceVelocity :=
  let '(potentialW, potentialNW) :=
    dirichletPotentials pressureType gravity unitDistVec dist I B
      storedW storedNW in
  (potentialW, potentialNW,
   dirichletVelocities tag pressureType gravity unitDistVec permeability
     dist I B potentialW potentialNW fv).

(** A boundary face (lines 363 to 584): the boundary saturation, then
    the Dirichlet or the Neumann face; the potentials are stored only at
    a Dirichlet face.  [permeability] is [permeabilityI] applied to the
    unit vector, [Jwetting] and [Jnonwetting] are the two fluxes of
    [neumannPress]. *)
Definition boundaryFace {problem : BoundaryProblem} (tag : TypeTag)
    (saturationType pressureType : Z) (compressibility : bool)
    (satIsDirichlet pressIsDirichlet : bool)
    (dirichletSat saturationI : Q)
    (gravity unitDistVec permeability : list Q) (dist : Q)
    (I : CellData) (Jwetting Jnonwetting : Q) (storedW storedNW : Q)
    (fv : FaceVelocity) : DuneError + (Q * Q * FaceVelocity) :=
  let satBound := satBound satIsDirichlet dirichletSat saturationI in
  if pressIsDirichlet then
    match dirichletData saturationType pressureType compressibility
            satBound with
    | inl e => inl e
    | inr B =>
      inr (dirichletFace tag pressureType gravity unitDistVec permeability
             dist I B storedW storedNW fv)
    end
  else
    inr (storedW, storedNW,
         neumannFace tag compressibility unitDistVec Jwetting Jnonwetting
           I fv).
End DirichletFace.


(** A problem whose densities grow with the pressure. *)
Definition demoProblem : BoundaryProblem :=
  {| dirichletPress := 5; pC := fun s => (1 - s)%Q; temperature := 283;
     wettingDensity := fun _ => 1000%Q;
     wettingDensityAt := fun _ p => (1000 + p)%Q;
     nonwettingDensity := fun _ => 800%Q;
     nonwettingDensityAt := fun _ p => (800 + p)%Q;
     mobW := fun s _ => s; mobWAt := fun s _ _ => s;
     mobN := fun s _ => s; mobNAt := fun s _ _ => s |}.

Definition demoBound : BoundaryData :=
  {| pressBound := 5; pcBound := 1; lambdaWBound := 2; lambdaNWBound := 1;
     densityWBound := 1000; densityNWBound := 750 |}.

(* ===================================================================== *)
(** ** [ewoms/common/start.hh]: bringing up a simulation                  *)
(* ===================================================================== *)

Module Start.

(** A thrown object: whether it is a [std::exception], whether it is a
    [Dune::Exception], and its [what()]. *)
Record Thrown : Type := {
  isStd : bool;
  isDune : bool;
  what : string
}.

Inductive Signal : Type :=
| SIGINT | SIGHUP | SIGABRT | SIGFPE | SIGSEGV | SIGPIPE | SIGTERM.

(** What [start] does to the outside, in program order: the calls to the
    parameter system, the thread manager and the simulator, whose code is
    absent, and the texts sent to [std::cout]. *)
Inductive Event : Type :=
| InstallHandler (sig : Signal)
| ResetLocale
| RegisterParam (name description : string)
| SimulatorRegisterParameters
| ThreadManagerRegisterParameters
| EndParamRegistration
| ParseCommandLineOptions (handleHelp : bool)
| OpenFile (name : string)
| PrintUsage (msg : string)
| ReadINITree (file : string)
| ThreadManagerInit
| Cout (s : string)
| ParametersPrintValues
| ParametersPrintUnused
| PropertiesPrintValues
| SimulatorConstruct
| SimulatorRun.

(** A computation inside the [try] block: the events so far, and a
    thrown object or a value. *)
Definition T (A : Type) : Type := (list Event * (Thrown + A))%type.

Definition retT {A} (a : A) : T A := ([], inr a).
Definition bindT {A B} (m : T A) (f : A -> T B) : T B :=
  match m with
  | (tr, inl e) => (tr, inl e)
  | (tr, inr a) => let '(tr', r) := f a in (tr ++ tr', r)
  end.

(** A call that is recorded and returns nothing, a call that is recorded
    and returns a value, and a read of a parameter. *)
Definition call (ev : Event) (r : option Thrown) : T unit :=
  ([ev], match r with Some e => inl e | None => inr tt end).
Definition callv {A} (ev : Event) (r : Thrown + A) : T A := ([ev], r).
Definition read {A} (r : Thrown + A) : T A := ([], r).
Definition cout (s : string) : T unit := ([Cout s], inr tt).
Definition when (b : bool) (m : T unit) : T unit := if b then m else retT tt.

Declare Scope start_scope.
Notation "'do' x <- m ; k" := (bindT m (fun x => k))
  (at level 10, x name, m at level 100, k at level 200) : start_scope.

(** The process and the absent code, one result for each place of call:
    [None] and [inr] are a return, [Some] and [inl] a thrown object. *)
Class Environment : Type := {
  stdinIsatty : bool;                       (* isatty(STDIN_FILENO)       *)
  stdoutIsatty : bool;                      (* isatty(fileno(stdout))     *)
  myRank : Z;                               (* the rank in [start]        *)
  setupRank : Z;                            (* the one in the set-up      *)
  duneNewerThan25 : bool;                   (* DUNE_VERSION_NEWER(_, 2,5) *)
  versionString : string;                   (* EWOMS_VERSION, or empty    *)
  simulatorRegisterParameters : option Thrown;
  threadManagerRegisterParameters : option Thrown;
  parseCommandLineOptions : Thrown + string;
  getParameterFile : Thrown + string;
  fileIsOpen : bool;                        (* tmp.is_open()              *)
  printUsage : string -> option Thrown;
  readINITree : option Thrown;
  threadManagerInit : option Thrown;
  getEndTime : Thrown + Q;
  getInitialTimeStepSize : Thrown + Q;
  getPrintParameters : Thrown + Z;
  parametersPrintValues : option Thrown;
  parametersPrintUnused : Thrown + bool;
  getPrintProperties : Thrown + Z;
  propertiesPrintValues : option Thrown;
  simulatorConstruct : option Thrown;
  simulatorRun : option Thrown
}.

Definition quote : string := String "034"%char EmptyString.
Definition nl : string := String "010"%char EmptyString.

(** [x < y] on doubles. *)
Definition Qlt_bool (x y : Q) : bool := negb (Qle_bool y x).

(** [-1e50]. *)
Definition unset : Q := inject_Z (- 10 ^ 50).

Section Start.
Context {env : Environment}.
Local Open Scope start_scope.

(** [registerAllParameters_] (lines 88 to 108). *)
Definition registerAllParameters_ : T unit :=
  do _ <- call (RegisterParam "ParameterFile"
      "An .ini file which contains a set of run-time parameters") None ;
  do _ <- call (RegisterParam "PrintProperties"
      "Print the values of the compile time properties at the start of the simulation")
      None ;
  do _ <- call (RegisterParam "PrintParameters"
      "Print the values of the run-time parameters at the start of the simulation")
      None ;
  do _ <- call SimulatorRegisterParameters simulatorRegisterParameters ;
  do _ <- call ThreadManagerRegisterParameters
            threadManagerRegisterParameters ;
  call EndParamRegistration None.

(** [setupParameters_] (lines 117 to 170). *)
Definition setupParameters_ (registerParams : bool) : T Z :=
  let myRank := setupRank in
  do _ <- when registerParams registerAllParameters_ ;
  do s <- callv (ParseCommandLineOptions (myRank =? 0))
            parseCommandLineOptions ;
  if negb (String.eqb s "") then retT 1
  else
    do paramFileName <- read getParameterFile ;
    if negb (String.eqb paramFileName "") then
      do _ <- call (OpenFile paramFileName) None ;
      if negb fileIsOpen then
        do _ <- when (myRank =? 0)
                  (let oss :=
                     String.append "Parameter file "
                       (String.append quote
                          (String.append paramFileName
                             (String.append quote
                                " does not exist or is not readable."))) in
                   call (PrintUsage oss) (printUsage oss)) ;
        retT 1
      else
        do _ <- call (ReadINITree paramFileName) readINITree ;
        retT 0
    else retT 0.

Definition endParametersSeparator : string :=
  String.append "# [end of parameters]" nl.

(** "print the parameters if requested" (lines 278 to 299). *)
Definition printParameters (printParams : Z) : T unit :=
  when (myRank =? 0)
    (if negb (printParams =? 0) then
       do printSeparator <-
         (if (printParams =? 1) || negb stdoutIsatty then
            do _ <- call ParametersPrintValues parametersPrintValues ;
            retT true
          else
            do unused <- callv ParametersPrintUnused parametersPrintUnused ;
            retT (false || unused)) ;
       when printSeparator (cout endParametersSeparator)
     else
       do unused <- callv ParametersPrintUnused parametersPrintUnused ;
       when unused (cout endParametersSeparator)).

(** The [try] block of [start] (lines 238 to 319). *)
Definition startBody : T Z :=
  do paramStatus <- setupParameters_ true ;
  if paramStatus =? 1 then retT 1
  else if paramStatus =? 2 then retT 0
  else
    do _ <- call ThreadManagerInit threadManagerInit ;
    do endTime <- read getEndTime ;
    if Qlt_bool endTime unset then
      do _ <- when (myRank =? 0)
                (let msg :=
                   "Mandatory parameter '--end-time' not specified!"%string in
                 call (PrintUsage msg) (printUsage msg)) ;
      retT 1
    else
      do initialTimeStepSize <- read getInitialTimeStepSize ;
      if Qlt_bool initialTimeStepSize unset then
        do _ <- when (myRank =? 0)
                  (let msg :=
                     "Mandatory parameter '--initial-time-step-size' not specified!"%string in
                   call (PrintUsage msg) (printUsage msg)) ;
        retT 1
      else
        do _ <- when (myRank =? 0)
                  (cout (String.append "eWoms "
                           (String.append versionString
                              (String.append
                                 " will now start the trip. Please sit back, relax and enjoy the ride."
                                 nl)))) ;
        do printParams <- read getPrintParameters ;
        do _ <- printParameters printParams ;
        do printProps <- read getPrintProperties ;
        do _ <- when (negb (printProps =? 0) && (myRank =? 0))
                  (when ((printProps =? 1) || negb stdoutIsatty)
                     (call PropertiesPrintValues propertiesPrintValues)) ;
        do _ <- call SimulatorConstruct simulatorConstruct ;
        do _ <- call SimulatorRun simulatorRun ;
        do _ <- when (myRank =? 0)
                  (cout (String.append
                           "eWoms reached the destination. If it is not the one that was intended, change the booking and try again."
                           nl)) ;
        retT 0.

(** The three handlers (lines 321 to 340), in the order of the source;
    the second one is compiled for the older Dune only. *)
Definition handlers (e : Thrown) : list Event * Z :=
  if isStd e then
    (if myRank =? 0
     then [Cout (String.append (what e) (String.append ". Abort!" nl))]
     else [], 1)
  else if negb duneNewerThan25 && isDune e then
    (if myRank =? 0
     then [Cout (String.append "Dune reported an error: "
                   (String.append (what e) nl))]
     else [], 2)
  else
    (if myRank =? 0
     then [Cout (String.append "Unknown exception thrown!" nl)]
     else [], 3).

(** [start] (lines 207 to 341): what it does and the value it returns. *)
Definition start : list Event * Z :=
  let pre :=
    (if stdinIsatty
     then [InstallHandler SIGINT; InstallHandler SIGHUP;
           InstallHandler SIGABRT; InstallHandler SIGFPE;
           InstallHandler SIGSEGV; InstallHandler SIGPIPE;
           InstallHandler SIGTERM]
     else []) ++ [ResetLocale] in
  match startBody with
  | (tr, inr status) => (pre ++ tr, status)
  | (tr, inl e) =>
    let '(tr', status) := handlers e in (pre ++ tr ++ tr', status)
  end.
End Start.

(** The events that write to the terminal. *)
Definition is_output (ev : Event) : bool :=
  match ev with
  | PrintUsage _ | Cout _ | ParametersPrintValues | ParametersPrintUnused
  | PropertiesPrintValues => true
  | _ => false
  end.

(** The number of lists of parameters printed: the calls of
    [Parameters::printValues] and of [Parameters::printUnused]. *)
Definition is_parameter_list (ev : Event) : bool :=
  match ev with
  | ParametersPrintValues | ParametersPrintUnused => true
  | _ => false
  end.

Definition printCalls (tr : list Event) : nat :=
  length (List.filter is_parameter_list tr).

(** The object thrown inside the [try] block, if any. *)
Definition thrown {env : Environment} : option Thrown :=
  match startBody with
  | (_, inl e) => Some e
  | (_, inr _) => None
  end.

(** A run on rank zero in which nothing throws: no parameter file, both
    mandatory parameters given, parameters printed on request. *)
Definition quietEnv : Environment :=
  {| stdinIsatty := false; stdoutIsatty := true; myRank := 0;
     setupRank := 0; duneNewerThan25 := false; versionString := "";
     simulatorRegisterParameters := None;
     threadManagerRegisterParameters := None;
     parseCommandLineOptions := inr ""%string;
     getParameterFile := inr ""%string;
     fileIsOpen := true;
     printUsage := fun _ => None;
     readINITree := None;
     threadManagerInit := None;
     getEndTime := inr 100%Q;
     getInitialTimeStepSize := inr 1%Q;
     getPrintParameters := inr 2;
     parametersPrintValues := None;
     parametersPrintUnused := inr true;
     getPrintProperties := inr 0;
     propertiesPrintValues := None;
     simulatorConstruct := None;
     simulatorRun := None |}.

(** The same run on another rank, with a simulator that throws an object
    that is a [Dune::Exception] and no [std::exception]. *)
Definition duneFailureEnv : Environment :=
  {| stdinIsatty := false; stdoutIsatty := true; myRank := 1;
     setupRank := 1; duneNewerThan25 := false; versionString := "";
     simulatorRegisterParameters := None;
     threadManagerRegisterParameters := None;
     parseCommandLineOptions := inr ""%string;
     getParameterFile := inr ""%string;
     fileIsOpen := true;
     printUsage := fun _ => None;
     readINITree := None;
     threadManagerInit := None;
     getEndTime := inr 100%Q;
     getInitialTimeStepSize := inr 1%Q;
     getPrintParameters := inr 2;
     parametersPrintValues := None;
     parametersPrintUnused := inr true;
     getPrintProperties := inr 0;
     propertiesPrintValues := None;
     simulatorConstruct := None;
     simulatorRun :=
       Some {| isStd := false; isDune := true; what := "grid" |} |}.

End Start.

(** Every event of a computation of [start] is one of those of [P]. *)
Definition emits_only {A} (P : Start.Event -> Prop) (m : Start.T A) : Prop :=
  Forall P m.1.

(* ===================================================================== *)
(** * Properties                                                          *)
(* ===================================================================== *)

(** ** The monad and the vectors *)

Lemma bind_inr {A B} (m : M A) (f : A -> M B) tr b :
  bind m f = (tr, inr b) ->
  exists tr1 a tr2, m = (tr1, inr a) /\ f a = (tr2, inr b) /\ tr = tr1 ++ tr2.
Proof.
  unfold bind. destruct m as [tr1 [e | a]]; [discriminate |].
  destruct (f a) as [tr2 r] eqn:Hf. intros [= <- ->].
  by exists tr1, a, tr2.
Qed.

Lemma bind_ok {A B} (m : M A) (f : A -> M B) tr1 a :
  m = (tr1, inr a) -> bind m f = (tr1 ++ fst (f a), snd (f a)).
Proof. intros ->. unfold bind. by destruct (f a). Qed.

Lemma Qgt_bool_true x y : Qgt_bool x y = true <-> (y < x)%Q.
Proof.
  unfold Qgt_bool. rewrite negb_true_iff, <- not_true_iff_false, Qle_bool_iff.
  split; [apply Qnot_le_lt | apply Qlt_not_le].
Qed.

Lemma Qgt_bool_false x y : Qgt_bool x y = false <-> (x <= y)%Q.
Proof.
  unfold Qgt_bool. by rewrite negb_false_iff, Qle_bool_iff.
Qed.

Lemma vec_at_inr {A} (v : list A) i tr a :
  vec_at v i = (tr, inr a) -> tr = [] /\ 0 <= i /\ v !! Z.to_nat i = Some a.
Proof.
  unfold vec_at. destruct (Z.ltb_spec i 0); [discriminate |].
  destruct (v !! Z.to_nat i); [| discriminate].
  by intros [= <- ->].
Qed.

Lemma vec_at_ok {A} (v : list A) i a :
  0 <= i -> v !! Z.to_nat i = Some a -> vec_at v i = ([], inr a).
Proof.
  intros Hi Hv. unfold vec_at. destruct (Z.ltb_spec i 0); [lia |].
  by rewrite Hv.
Qed.

Lemma vec_set_inr {A} (v : list A) i a tr v' :
  vec_set v i a = (tr, inr v') ->
  tr = [] /\ 0 <= i < Z.of_nat (length v) /\ v' = <[Z.to_nat i := a]> v.
Proof.
  unfold vec_set. destruct (Z.ltb_spec i 0); [discriminate |].
  destruct (Z.leb_spec (Z.of_nat (length v)) i); [discriminate |].
  simpl. intros [= <- <-]. repeat split; lia.
Qed.

Lemma vec_set_ok {A} (v : list A) i a :
  0 <= i < Z.of_nat (length v) ->
  vec_set v i a = ([], inr (<[Z.to_nat i := a]> v)).
Proof.
  intros Hi. unfold vec_set. destruct (Z.ltb_spec i 0); [lia |].
  by destruct (Z.leb_spec (Z.of_nat (length v)) i); [lia |].
Qed.

Lemma tab_at_inr t p i tr x :
  tab_at t p (Z.of_nat i) = (tr, inr x) ->
  tr = [] /\ 0 <= p /\ entry t p i = Some x.
Proof.
  unfold tab_at. intros (tr1 & row & tr2 & Hrow & Hx & ->)%bind_inr.
  apply vec_at_inr in Hrow as (-> & Hp & Hrow).
  apply vec_at_inr in Hx as (-> & _ & Hx).
  rewrite Nat2Z.id in Hx. unfold entry.
  destruct (Z.ltb_spec p 0); [lia |]. by rewrite Hrow.
Qed.

Lemma tab_at_ok t p i x :
  0 <= p -> entry t p i = Some x -> tab_at t p (Z.of_nat i) = ([], inr x).
Proof.
  unfold entry, tab_at. intros Hp. destruct (Z.ltb_spec p 0); [lia |].
  destruct (t !! Z.to_nat p) as [row |] eqn:Hrow; [| discriminate].
  intros Hx. rewrite (bind_ok _ _ [] row) by by apply vec_at_ok.
  rewrite (vec_at_ok row (Z.of_nat i) x); [done | lia |].
  by rewrite Nat2Z.id.
Qed.

Lemma tab_set_inr t p i x tr t' :
  tab_set t p (Z.of_nat i) x = (tr, inr t') ->
  tr = [] /\ 0 <= p /\ is_Some (entry t p i) /\ t' = upd t p i x.
Proof.
  unfold tab_set. intros (tr1 & row & tr2 & Hrow & Hk & ->)%bind_inr.
  apply bind_inr in Hk as (tr3 & row' & tr4 & Hrow' & Ht' & ->).
  apply vec_at_inr in Hrow as (-> & Hp & Hrow).
  apply vec_set_inr in Hrow' as (-> & Hi & ->).
  apply vec_set_inr in Ht' as (-> & Hp' & ->).
  rewrite Nat2Z.id. repeat split; [done | |].
  - unfold entry. destruct (Z.ltb_spec p 0); [lia |]. rewrite Hrow.
    apply lookup_lt_is_Some. lia.
  - unfold upd. apply list_eq. intros k.
    destruct (decide (k = Z.to_nat p)) as [-> |].
    + rewrite list_lookup_insert_eq by lia.
      by rewrite list_lookup_alter_eq, Hrow.
    + by rewrite list_lookup_insert_ne, list_lookup_alter_ne by done.
Qed.

Lemma tab_set_ok t p i x :
  0 <= p -> is_Some (entry t p i) ->
  tab_set t p (Z.of_nat i) x = ([], inr (upd t p i x)).
Proof.
  intros Hp Hsome. destruct (tab_set t p (Z.of_nat i) x) as [tr r] eqn:E.
  assert (exists t', (tr, r) = ([], inr t')) as [t' Ht'].
  { revert E. unfold tab_set, entry in *.
    destruct (Z.ltb_spec p 0); [lia |].
    destruct (t !! Z.to_nat p) as [row |] eqn:Hrow; rewrite ?Hrow in Hsome;
      [| by destruct Hsome].
    apply lookup_lt_is_Some in Hsome.
    rewrite (bind_ok _ _ [] row) by by apply vec_at_ok.
    rewrite (bind_ok _ _ [] (<[i := x]> row)).
    2:{ rewrite vec_set_ok by lia. by rewrite Nat2Z.id. }
    rewrite vec_set_ok.
    2:{ apply lookup_lt_Some in Hrow. lia. }
    simpl. intros <-. eauto. }
  rewrite Ht' in E. apply tab_set_inr in E as (_ & _ & _ & ->). done.
Qed.

Lemma entry_upd_eq t p i x :
  0 <= p -> is_Some (entry t p i) -> entry (upd t p i x) p i = Some x.
Proof.
  unfold entry, upd. intros Hp. destruct (Z.ltb_spec p 0); [lia |].
  rewrite list_lookup_alter_eq.
  destruct (t !! Z.to_nat p) as [row |]; simpl; [| by intros [? ?]].
  intros Hi%lookup_lt_is_Some. by apply list_lookup_insert_eq.
Qed.

Lemma entry_upd_ne t p i x p' i' :
  0 <= p -> p <> p' \/ i <> i' ->
  entry (upd t p i x) p' i' = entry t p' i'.
Proof.
  unfold entry, upd. intros Hp Hne. destruct (Z.ltb_spec p' 0); [done |].
  destruct (decide (p = p')) as [<- | Hpp].
  - rewrite list_lookup_alter_eq.
    destruct (t !! Z.to_nat p) as [row |]; simpl; [| done].
    apply list_lookup_insert_ne. by destruct Hne.
  - rewrite list_lookup_alter_ne by lia. done.
Qed.

Lemma entry_upd_is_Some t p i x p' i' :
  0 <= p ->
  is_Some (entry (upd t p i x) p' i') <-> is_Some (entry t p' i').
Proof.
  intros Hp.
  destruct (decide (p = p' /\ i = i')) as [[<- <-] | Hne].
  - split; intros Hs.
    + unfold entry, upd in *. destruct (Z.ltb_spec p 0); [lia |].
      rewrite list_lookup_alter_eq in Hs.
      destruct (t !! Z.to_nat p) as [row |]; simpl in *; [| done].
      apply lookup_lt_is_Some in Hs. rewrite length_insert in Hs.
      by apply lookup_lt_is_Some.
    + rewrite entry_upd_eq; eauto.
  - rewrite entry_upd_ne; [done | done |].
    destruct (decide (p = p')); [right | by left]. naive_solver.
Qed.

Lemma of_helper_inr {A} c (r : option A) tr a :
  of_helper c r = (tr, inr a) -> tr = [c] /\ r = Some a.
Proof.
  unfold of_helper. destruct r; simpl; [| discriminate].
  by intros [= <- <-].
Qed.

Lemma ret_inr {A} (a : A) tr b : ret a = (tr, inr b) -> tr = [] /\ a = b.
Proof. by intros [= <- <-]. Qed.

Ltac inv_step :=
  match goal with
  | H : bind _ _ = (_, inr _) |- _ =>
      apply bind_inr in H as (? & ? & ? & ? & H & ->)
  | H : tab_at _ _ (Z.of_nat _) = (_, inr _) |- _ =>
      apply tab_at_inr in H as (-> & ? & ?)
  | H : tab_set _ _ (Z.of_nat _) _ = (_, inr _) |- _ =>
      apply tab_set_inr in H as (-> & ? & ? & ->)
  | H : of_helper _ _ = (_, inr _) |- _ =>
      apply of_helper_inr in H as (-> & ?)
  | H : ret _ = (_, inr _) |- _ =>
      apply ret_inr in H as (-> & ?); simplify_eq
  | H : (_, inr _) = (_, inr _) |- _ =>
      apply (ret_inr _ _ _) in H as (-> & ?); simplify_eq
  end.

Ltac solve_entry :=
  repeat first
    [ rewrite entry_upd_eq
        by (done || (rewrite ?entry_upd_is_Some by done; done))
    | rewrite entry_upd_ne by (done || (left; done) || (right; done)) ];
  try done.

(** ** One pass of the loop body *)

Section CellStep.
Context {helpers : EquilibrationHelpers}.
Variable reg : EquilReg.
Variable props : BlackoilPropertiesInterface.
Variable pp : PPress.

Abbreviation pu := (pu_ reg).

Lemma cellStep_inv ps li c tr ps' :
  distinct_positions pu ->
  phase_used pu Liquid = true ->
  cellStep reg props pp ps li c = (tr, inr ps') ->
  exists sw0 sg0 sw sg,
    cell_values reg props pp li c sw0 sg0 sw sg tr /\
    (phase_used pu Aqua = true ->
     entry ps' (phase_pos pu Aqua) li = Some sw) /\
    (phase_used pu Vapour = true ->
     entry ps' (phase_pos pu Vapour) li = Some sg) /\
    entry ps' (phase_pos pu Liquid) li = Some (1 - sw - sg)%Q /\
    (forall p i, i <> li -> entry ps' p i = entry ps p i) /\
    (forall p i, is_Some (entry ps' p i) <-> is_Some (entry ps p i)).
Proof.
  intros Hdist Hoil. unfold cellStep.
  intros (tr0 & [] & trA & [= <-] & HA & ->)%bind_inr.
  destruct (satRange props c) as [smin smax].
  apply bind_inr in HA as (trw & [sw0 ps1] & trB & Hw & HB & ->).
  apply bind_inr in HB as (trg & [sg0 ps2] & trC & Hg & HC & ->).
  apply bind_inr in HC as (tro & [[sw sg] ps3] & trD & Ho & HD & ->).
  apply tab_set_inr in HD as (-> & Hopos & Hosome & ->).
  exists sw0, sg0, sw, sg. split.
  { unfold cell_values. exists trw, trg, tro.
    split; [by rewrite app_nil_r |].
    destruct (phase_used pu Aqua) eqn:Hwat;
      destruct (phase_used pu Vapour) eqn:Hgas; simpl in *;
      try destruct (Qgt_bool (sg0 + sw0) 1) eqn:Hov;
      repeat inv_step; simpl; naive_solver. }
  destruct (phase_used pu Aqua) eqn:Hwat;
    destruct (phase_used pu Vapour) eqn:Hgas; simpl in Ho;
    try destruct (Qgt_bool (sg0 + sw0) 1) eqn:Hov;
    repeat inv_step;
    try (assert (phase_pos pu Aqua <> phase_pos pu Liquid)
           by (by apply Hdist));
    try (assert (phase_pos pu Vapour <> phase_pos pu Liquid)
           by (by apply Hdist));
    try (assert (phase_pos pu Aqua <> phase_pos pu Vapour)
           by (by apply Hdist));
    (split; [first [by intros [=] | intros _; solve_entry] |]);
    (split; [first [by intros [=] | intros _; solve_entry] |]);
    (split; [solve_entry |]);
    (split; intros p i; [intros Hi; solve_entry |]);
    by rewrite ?entry_upd_is_Some by done.
Qed.
End CellStep.

(** ** The loop over the cell range *)

Section CellLoop.
Context {helpers : EquilibrationHelpers}.
Variable reg : EquilReg.
Variable props : BlackoilPropertiesInterface.
Variable pp : PPress.

Abbreviation pu := (pu_ reg).

Lemma cell_values_shape li c sw0 sg0 sw sg tr :
  cell_values reg props pp li c sw0 sg0 sw sg tr ->
  exists invs, tr = call_satRange c :: invs /\
               Forall (fun call => is_inversion call = true) invs.
Proof.
  intros (tr1 & tr2 & tr3 & -> & Hw & Hg & Ho).
  exists (tr1 ++ tr2 ++ tr3). split; [done |].
  destruct (phase_used pu Aqua), (phase_used pu Vapour); simpl in Ho;
    try destruct (Qgt_bool (sg0 + sw0) 1);
    repeat match goal with
           | Hx : _ /\ _ |- _ => destruct Hx
           | Hx : ex _ |- _ => destruct Hx
           end; subst; simpl; repeat constructor.
Qed.

Lemma since_query_inversions invs tl :
  Forall (fun call => is_inversion call = true) invs ->
  since_query (invs ++ tl) = invs ++ since_query tl.
Proof.
  induction 1 as [| call invs Hcall _ IH]; [done |].
  simpl. rewrite IH. by destruct call.
Qed.

Lemma cell_trace_inversions invs tl j :
  Forall (fun call => is_inversion call = true) invs ->
  cell_trace (invs ++ tl) j = cell_trace tl j.
Proof.
  induction 1 as [| call invs Hcall _ IH]; [done |].
  simpl. rewrite IH. by destruct call, j.
Qed.

Lemma cell_values_queries li c sw0 sg0 sw sg tr :
  cell_values reg props pp li c sw0 sg0 sw sg tr ->
  satRange_queries tr = [c].
Proof.
  intros (tr1 & tr2 & tr3 & -> & Hw & Hg & Ho).
  destruct (phase_used pu Aqua), (phase_used pu Vapour); simpl in Ho;
    try destruct (Qgt_bool (sg0 + sw0) 1);
    repeat match goal with
           | Hx : _ /\ _ |- _ => destruct Hx
           | Hx : ex _ |- _ => destruct Hx
           end; by subst.
Qed.

(** The facts that hold of cell [j] of the range after the loop. *)
Lemma cellLoop_inv cells li0 ps0 tr sat :
  distinct_positions pu ->
  phase_used pu Liquid = true ->
  cellLoop reg props pp cells li0 ps0 = (tr, inr sat) ->
  (forall j c, cells !! j = Some c ->
     exists sw0 sg0 sw sg trc,
       cell_values reg props pp (li0 + j) c sw0 sg0 sw sg trc /\
       cell_trace tr j = trc /\
       (phase_used pu Aqua = true ->
        entry sat (phase_pos pu Aqua) (li0 + j) = Some sw) /\
       (phase_used pu Vapour = true ->
        entry sat (phase_pos pu Vapour) (li0 + j) = Some sg) /\
       entry sat (phase_pos pu Liquid) (li0 + j)
       = Some (1 - sw - sg)%Q) /\
  (forall p i, (i < li0 \/ li0 + length cells <= i)%nat ->
     entry sat p i = entry ps0 p i) /\
  (forall p i, is_Some (entry sat p i) <-> is_Some (entry ps0 p i)) /\
  satRange_queries tr = cells /\
  (forall call, call ∈ tr ->
     exists j c sw0 sg0 sw sg trc,
       cells !! j = Some c /\
       cell_values reg props pp (li0 + j) c sw0 sg0 sw sg trc /\
       call ∈ trc) /\
  since_query tr = [].
Proof.
  intros Hdist Hoil. revert li0 ps0 tr.
  induction cells as [| c rest IH]; intros li0 ps0 tr; simpl.
  { intros [= <- <-]. repeat split; try done.
    intros call Hin. by apply elem_of_nil in Hin. }
  intros (tr1 & ps1 & tr2 & Hstep & Hloop & ->)%bind_inr.
  apply cellStep_inv in Hstep
    as (sw0 & sg0 & sw & sg & Hvals & Hw & Hg & Ho & Hframe & Hshape);
    [| done | done].
  apply IH in Hloop as (IHcells & IHframe & IHshape & IHq & IHin & IHsq).
  destruct (cell_values_shape _ _ _ _ _ _ _ Hvals) as (invs & -> & Hinvs).
  repeat split.
  - intros [| j] c' Hc'; simpl in Hc'.
    + injection Hc' as <-. rewrite Nat.add_0_r.
      exists sw0, sg0, sw, sg, (call_satRange c :: invs).
      split; [done |]. split.
      { simpl. by rewrite since_query_inversions, IHsq, app_nil_r. }
      rewrite !IHframe by lia. done.
    + destruct (IHcells j c' Hc')
        as (sw0' & sg0' & sw' & sg' & trc & Hv & Htrc & He).
      replace (li0 + S j)%nat with (S li0 + j)%nat by lia.
      exists sw0', sg0', sw', sg', trc. split; [done |].
      split; [| done]. simpl. by rewrite cell_trace_inversions.
  - intros p i Hi. simpl in Hi. rewrite IHframe by lia.
    apply Hframe. lia.
  - intros Hs. by apply Hshape, IHshape.
  - intros Hs. by apply IHshape, Hshape.
  - pose proof (cell_values_queries _ _ _ _ _ _ _ Hvals) as Hq.
    unfold satRange_queries in *. rewrite omap_app.
    by rewrite Hq, IHq.
  - intros call [Hin | Hin]%elem_of_app.
    + exists 0%nat, c, sw0, sg0, sw, sg, (call_satRange c :: invs).
      rewrite Nat.add_0_r. done.
    + destruct (IHin call Hin)
        as (j & c' & sw0' & sg0' & sw' & sg' & trc & Hc' & Hv & Hcall).
      exists (S j), c', sw0', sg0', sw', sg', trc.
      replace (li0 + S j)%nat with (S li0 + j)%nat by lia. done.
Qed.
End CellLoop.

(** ** The loop returns when the collaborators do *)

Lemma returns_bind_ok {A B} (m : M A) (f : A -> M B) tr1 a :
  m = (tr1, inr a) -> returns (f a) -> returns (bind m f).
Proof.
  intros -> [b Hb]. exists b. unfold bind, outcome in *.
  destruct (f a) as [tr2 r]. done.
Qed.

Lemma returns_bind {A B} (m : M A) (f : A -> M B) :
  returns m -> (forall tr a, m = (tr, inr a) -> returns (f a)) ->
  returns (bind m f).
Proof.
  intros [a Ha] Hf. destruct m as [tr1 r]. simpl in Ha. subst r.
  eapply returns_bind_ok; [done |]. by eapply Hf.
Qed.

Lemma returns_inr {A} (m : M A) tr a : m = (tr, inr a) -> returns m.
Proof. intros ->. by exists a. Qed.

Lemma of_helper_ok {A} c (r : option A) a :
  r = Some a -> of_helper c r = ([c], inr a).
Proof. by intros ->. Qed.

Ltac fwd_step :=
  first
    [ eapply returns_bind_ok; [by apply tab_at_ok |]
    | eapply returns_bind_ok; [by apply of_helper_ok |]
    | eapply returns_bind_ok;
        [apply tab_set_ok;
           [done | by rewrite ?entry_upd_is_Some by done] |]
    | by eapply returns_inr; apply tab_set_ok;
           [done | by rewrite ?entry_upd_is_Some by done]
    | by eapply returns_inr ].

Section Totality.
Context {helpers : EquilibrationHelpers}.
Variable reg : EquilReg.
Variable props : BlackoilPropertiesInterface.
Variable pp : PPress.

Abbreviation pu := (pu_ reg).

Lemma cellStep_returns ps li c :
  (phase_used pu Aqua = true \/ phase_used pu Vapour = true ->
   helpers_total props) ->
  phase_used pu Liquid = true ->
  covers pu pp (S li) -> covers pu ps (S li) ->
  returns (cellStep reg props pp ps li c).
Proof.
  intros Htot Hoil Hpp Hps. unfold cellStep.
  apply returns_bind; [by eexists |]. intros _ [] _.
  destruct (satRange props c) as [smin smax].
  destruct (Hpp Liquid li Hoil) as [Hopos [po Hpo]]; [lia |].
  destruct (Hps Liquid li Hoil) as [_ Hso]; [lia |].
  apply returns_bind.
  { destruct (phase_used pu Aqua) eqn:Hwat; [| by eexists].
    destruct Htot as [Hpc Hsum]; [by left |].
    destruct (Hpp Aqua li Hwat) as [Hwpos [pw Hpw]]; [lia |].
    destruct (Hps Aqua li Hwat) as [_ Hsw]; [lia |].
    destruct (Hpc (phase_pos pu Aqua) c (po - pw)%Q false) as [s Hs].
    repeat fwd_step. }
  intros trw [sw0 ps1] Hw.
  assert (forall p i, is_Some (entry ps1 p i) <-> is_Some (entry ps p i))
    as Hshape1.
  { intros p i. destruct (phase_used pu Aqua); simpl in Hw;
      repeat inv_step; by rewrite ?entry_upd_is_Some by done. }
  apply returns_bind.
  { destruct (phase_used pu Vapour) eqn:Hgas; [| by eexists].
    destruct Htot as [Hpc Hsum]; [by right |].
    destruct (Hpp Vapour li Hgas) as [Hgpos [pg Hpg]]; [lia |].
    destruct (Hps Vapour li Hgas) as [_ Hsg]; [lia |].
    apply Hshape1 in Hsg.
    destruct (Hpc (phase_pos pu Vapour) c (pg - po)%Q true) as [s Hs].
    repeat fwd_step. }
  intros trg [sg0 ps2] Hg.
  assert (forall p i, is_Some (entry ps2 p i) <-> is_Some (entry ps p i))
    as Hshape2.
  { intros p i. rewrite <- Hshape1.
    destruct (phase_used pu Vapour); simpl in Hg; repeat inv_step;
      by rewrite ?entry_upd_is_Some by done. }
  apply returns_bind.
  { destruct (phase_used pu Vapour) eqn:Hgas; [| by eexists].
    destruct (phase_used pu Aqua) eqn:Hwat; [| by eexists].
    simpl. destruct (Qgt_bool (sg0 + sw0) 1); [| by eexists].
    destruct Htot as [Hpc Hsum]; [by right |].
    destruct (Hpp Vapour li Hgas) as [Hgpos [pg Hpg]]; [lia |].
    destruct (Hpp Aqua li Hwat) as [Hwpos [pw Hpw]]; [lia |].
    destruct (Hps Vapour li Hgas) as [_ Hsg]; [lia |].
    destruct (Hps Aqua li Hwat) as [_ Hsw]; [lia |].
    apply Hshape2 in Hsg, Hsw.
    destruct (Hsum (phase_pos pu Aqua) (phase_pos pu Vapour) c
                (pg - pw)%Q) as [s Hs].
    repeat fwd_step. }
  intros tro [[sw sg] ps3] Ho.
  assert (is_Some (entry ps3 (phase_pos pu Liquid) li)) as Hs3.
  { apply Hshape2 in Hso. clear Hw Hg Hshape1 Hshape2.
    destruct (phase_used pu Vapour), (phase_used pu Aqua);
      simpl in Ho; try destruct (Qgt_bool (sg0 + sw0) 1);
      repeat inv_step; by rewrite ?entry_upd_is_Some by done. }
  fwd_step.
Qed.

Lemma cellLoop_returns cells li0 ps0 :
  (phase_used pu Aqua = true \/ phase_used pu Vapour = true ->
   helpers_total props) ->
  distinct_positions pu ->
  phase_used pu Liquid = true ->
  covers pu pp (li0 + length cells) ->
  covers pu ps0 (li0 + length cells) ->
  returns (cellLoop reg props pp cells li0 ps0).
Proof.
  intros Htot Hdist Hoil. revert li0 ps0.
  induction cells as [| c rest IH]; intros li0 ps0 Hpp Hps; simpl.
  { by eexists. }
  simpl in Hpp, Hps. apply returns_bind.
  - apply cellStep_returns; try done.
    + intros ph i Hph Hi. apply Hpp; [done | lia].
    + intros ph i Hph Hi. apply Hps; [done | lia].
  - intros tr1 ps1 Hstep. apply IH.
    + intros ph i Hph Hi. apply Hpp; [done | lia].
    + apply cellStep_inv in Hstep
        as (_ & _ & _ & _ & _ & _ & _ & _ & _ & Hshape); [| done | done].
      intros ph i Hph Hi. destruct (Hps ph i Hph) as [Hpos Hs]; [lia |].
      split; [done |]. by apply Hshape.
Qed.
End Totality.
(** ** [phaseSaturations] as a whole *)

Section PhaseSaturationsFacts.
Context {helpers : EquilibrationHelpers}.
Variable reg : EquilReg.
Variable props : BlackoilPropertiesInterface.
Variable pp : PPress.

Abbreviation pu := (pu_ reg).

Lemma phaseSaturations_inr cells tr sat :
  phaseSaturations reg props pp cells = (tr, inr sat) ->
  (zgoc reg <= datum reg)%Q /\ (datum reg <= zwoc reg)%Q /\
  phase_used pu Liquid = true /\
  cellLoop reg props pp cells 0 pp = (tr, inr sat).
Proof.
  unfold phaseSaturations.
  destruct (Qgt_bool (zgoc reg) (datum reg)) eqn:Hg; [discriminate |].
  destruct (Qgt_bool (datum reg) (zwoc reg)) eqn:Hw; [discriminate |].
  destruct (phase_used pu Liquid); [| discriminate]. simpl.
  apply Qgt_bool_false in Hg, Hw. done.
Qed.

Lemma cell_values_inactive li c sw0 sg0 sw sg trc :
  cell_values reg props pp li c sw0 sg0 sw sg trc ->
  (phase_used pu Aqua = false -> sw = 0%Q) /\
  (phase_used pu Vapour = false -> sg = 0%Q).
Proof.
  intros (tr1 & tr2 & tr3 & _ & Hw & Hg & Ho).
  destruct (phase_used pu Aqua), (phase_used pu Vapour);
    simpl in Ho; split; intros [=];
    destruct Hw, Hg, Ho as (? & ? & ?); congruence.
Qed.

(** The facts about cell [li] of a run that returns. *)
Lemma phaseSaturations_cell cells tr sat li c :
  distinct_positions pu ->
  phaseSaturations reg props pp cells = (tr, inr sat) ->
  cells !! li = Some c ->
  exists sw0 sg0 sw sg trc,
    cell_values reg props pp li c sw0 sg0 sw sg trc /\
    cell_trace tr li = trc /\
    phaseSat pu sat Aqua li = Some sw /\
    phaseSat pu sat Liquid li = Some (1 - sw - sg)%Q /\
    phaseSat pu sat Vapour li = Some sg.
Proof.
  intros Hdist (_ & _ & Hoil & Hloop)%phaseSaturations_inr Hc.
  apply cellLoop_inv in Hloop as (Hcells & _); [| done | done].
  destruct (Hcells li c Hc)
    as (sw0 & sg0 & sw & sg & trc & Hv & Htr & Hw & Hg & Ho).
  simpl in *. exists sw0, sg0, sw, sg, trc.
  destruct (cell_values_inactive _ _ _ _ _ _ _ Hv) as [Hw0 Hg0].
  unfold phaseSat. rewrite Hoil.
  repeat split; try done.
  - destruct (phase_used pu Aqua); [by apply Hw | by rewrite Hw0].
  - destruct (phase_used pu Vapour); [by apply Hg | by rewrite Hg0].
Qed.
End PhaseSaturationsFacts.

Section PhaseSaturationsRun.
Context {helpers : EquilibrationHelpers}.
Variable reg : EquilReg.
Variable props : BlackoilPropertiesInterface.
Variable pp : PPress.

Abbreviation pu := (pu_ reg).

Lemma phaseSaturations_loop cells :
  (zgoc reg <= datum reg)%Q -> (datum reg <= zwoc reg)%Q ->
  phase_used pu Liquid = true ->
  phaseSaturations reg props pp cells = cellLoop reg props pp cells 0 pp.
Proof.
  intros Hg%Qgt_bool_false Hw%Qgt_bool_false Hoil.
  unfold phaseSaturations. by rewrite Hg, Hw, Hoil.
Qed.

Lemma phaseSaturations_returns cells :
  (zgoc reg <= datum reg)%Q -> (datum reg <= zwoc reg)%Q ->
  phase_used pu Liquid = true ->
  (phase_used pu Aqua = true \/ phase_used pu Vapour = true ->
   helpers_total props) ->
  distinct_positions pu ->
  covers pu pp (length cells) ->
  returns (phaseSaturations reg props pp cells).
Proof.
  intros Hg Hw Hoil Htot Hdist Hcov.
  rewrite phaseSaturations_loop by done.
  by apply cellLoop_returns.
Qed.

Lemma cell_values_sum_call li c sw0 sg0 sw sg trc :
  cell_values reg props pp li c sw0 sg0 sw sg trc ->
  (exists call, call ∈ trc /\ is_sum_inversion call = true) <->
  phase_used pu Vapour && phase_used pu Aqua && Qgt_bool (sg0 + sw0) 1
  = true.
Proof.
  intros (tr1 & tr2 & tr3 & -> & Hw & Hg & Ho).
  assert (forall call, call ∈ tr1 ++ tr2 -> is_sum_inversion call = false)
    as Hno.
  { intros call [Hin | Hin]%elem_of_app.
    - destruct (phase_used pu Aqua).
      + destruct Hw as (? & ? & _ & _ & _ & ->).
        by apply list_elem_of_singleton in Hin as ->.
      + destruct Hw as [_ ->]. by apply elem_of_nil in Hin.
    - destruct (phase_used pu Vapour).
      + destruct Hg as (? & ? & _ & _ & _ & ->).
        by apply list_elem_of_singleton in Hin as ->.
      + destruct Hg as [_ ->]. by apply elem_of_nil in Hin. }
  destruct (phase_used pu Vapour && phase_used pu Aqua
            && Qgt_bool (sg0 + sw0) 1).
  - destruct Ho as (pg & pw & _ & _ & _ & _ & ->). split; [done |].
    intros _.
    exists (call_satFromSumOfPcs (phase_pos pu Aqua)
              (phase_pos pu Vapour) c (pg - pw)%Q).
    split; [| reflexivity].
    rewrite app_assoc. apply elem_of_cons. right.
    apply elem_of_app. right. by apply list_elem_of_singleton.
  - destruct Ho as (_ & _ & ->). rewrite app_nil_r. split; [| done].
    intros (call & Hin & Hsum).
    apply elem_of_cons in Hin as [-> | Hin]; [done |].
    apply Hno in Hin. congruence.
Qed.
End PhaseSaturationsRun.

(** ** The concrete collaborators *)

Lemma pu3_distinct : distinct_positions pu3.
Proof. intros [] [] _ _ Hne; simpl; congruence. Qed.


Lemma pu_oil_distinct : distinct_positions pu_oil.
Proof. intros [] [] Ha Hb Hne; simpl in *; congruence. Qed.

Lemma clamp_bounds lo hi x :
  (lo <= hi)%Q -> (lo <= clamp lo hi x /\ clamp lo hi x <= hi)%Q.
Proof.
  intros Hle. unfold clamp.
  destruct (Qle_bool x lo) eqn:H1; [split; [apply Qle_refl | done] |].
  destruct (Qle_bool hi x) eqn:H2; [split; [done | apply Qle_refl] |].
  apply not_true_iff_false in H1, H2. rewrite Qle_bool_iff in H1, H2.
  split; apply Qlt_le_weak, Qnot_le_lt; done.
Qed.

Lemma linProps_range pu cell pos :
  (fst (satRange (linProps pu) cell) pos
   <= snd (satRange (linProps pu) cell) pos)%Q.
Proof.
  simpl. destruct (pos =? 0); [done |]. destruct (pos =? 1); done.
Qed.

Lemma linHelpers_clamped pu :
  helpers_clamped (helpers := linHelpers) (linProps pu).
Proof.
  split.
  - intros phase cell target incr s [= <-].
    apply clamp_bounds, (linProps_range pu cell).
  - intros phase1 phase2 cell target s [= <-].
    apply clamp_bounds, (linProps_range pu cell).
Qed.


Lemma demoRun3_eq : demoRun3 = (demoTrace3, inr demoSat3).
Proof. vm_compute. reflexivity. Qed.


(** The three-phase run: the first cell keeps the two inverted
    saturations, the second has its overlap corrected. *)
Example demoRun3_first_cell :
  map (fun ph => option_map Qred (phaseSat pu3 demoSat3 ph 0))
      [Aqua; Liquid; Vapour]
  = [Some (1 # 2); Some (1 # 5); Some (3 # 10)]%Q.
Proof. vm_compute. reflexivity. Qed.

Example demoRun3_second_cell :
  map (fun ph => option_map Qred (phaseSat pu3 demoSat3 ph 1))
      [Aqua; Liquid; Vapour]
  = [Some (1 # 4); Some 0; Some (3 # 4)]%Q.
Proof. vm_compute. reflexivity. Qed.

Example demoRun3_calls :
  demoTrace3
  = [ call_satRange 0;
      call_satFromPc 0 0 ((1 # 2) - 0)%Q false;
      call_satFromPc 2 0 ((4 # 5) - (1 # 2))%Q true;
      call_satRange 1;
      call_satFromPc 0 1 ((3 # 5) - 0)%Q false;
      call_satFromPc 2 1 ((3 # 2) - (3 # 5))%Q true;
      call_satFromSumOfPcs 0 2 1 ((3 # 2) - 0)%Q ].
Proof. vm_compute. reflexivity. Qed.

(** The water-oil run, the pure-oil run with inverters that would raise,
    and the two failing preconditions. *)
Example demoRunWO_saturations :
  map (map Qred) demoSatWO = [ [1 # 2; 2 # 5]; [1 # 2; 3 # 5] ]%Q.
Proof. vm_compute. reflexivity. Qed.

Example demoRunOil_result :
  demoRunOil = ([call_satRange 0; call_satRange 1], inr [ [1; 1] ]%Q).
Proof. vm_compute. reflexivity. Qed.

Example bad_datum_throws :
  phaseSaturations (helpers := linHelpers)
    (badDatumReg pu3) (linProps pu3) demoPress demoCells
  = ([], inl (runtime_error
       "Cannot initialise: the datum depth must be in the oil zone.")).
Proof. reflexivity. Qed.

Example water_gas_throws :
  phaseSaturations (helpers := linHelpers)
    (demoReg pu_wg) (linProps pu_wg) demoPress demoCells
  = ([], inl (runtime_error
       "Cannot initialise: not handling water-gas cases.")).
Proof. reflexivity. Qed.

(** The driver on three cells in two regions: cells 0 and 2 are in
    region 0 (datum pressure 200), cell 1 in region 1 (datum pressure
    300). *)
Example demoComputer_pressures :
  map (map Qred) demoPressField
  = [ [200; 3001 # 10; 1001 # 5];
      [1003 # 5; 3007 # 10; 1004 # 5];
      [1004 # 5; 3009 # 10; 201] ]%Q.
Proof. vm_compute. reflexivity. Qed.

Example demoComputer_saturations :
  map (map Qred) demoSatField
  = [ [2 # 5; 2 # 5; 2 # 5]; [2 # 5; 2 # 5; 2 # 5];
      [1 # 5; 1 # 5; 1 # 5] ]%Q.
Proof. vm_compute. reflexivity. Qed.

Example demoRegions_cells :
  numRegions demoRegions = 2 /\
  cells demoRegions 0 = [0; 2] /\ cells demoRegions 1 = [1].
Proof. by vm_compute. Qed.

Lemma demo_first_cell_uncorrected : ~ overlap_corrected demoTrace3 0.
Proof.
  intros (call & Hin & Hsum).
  remember (cell_trace demoTrace3 0) as calls eqn:Hcalls.
  vm_compute in Hcalls. subst calls.
  repeat (apply elem_of_cons in Hin as [-> | Hin]; [discriminate |]).
  by apply elem_of_nil in Hin.
Qed.


(* ===================================================================== *)
(** * The claims                                                          *)
(* ===================================================================== *)

(** C1.  For every run of [phaseSaturations] that passes its two
    preconditions and returns, and for every cell of the range, the
    saturations of the three phases sum to one: the oil saturation is the
    closure [1 - s_water - s_gas] of the water and gas saturations in
    force, and no capillary-pressure inversion is ever made for the oil
    phase. *)
Theorem C1_saturations_sum_to_one {helpers : EquilibrationHelpers}
    (reg : EquilReg) (props : BlackoilPropertiesInterface)
    (pp : PPress) (cells : list Z) (tr : list Call) (sat : PPress)
    (li : nat) :
  distinct_positions (pu_ reg) ->
  phaseSaturations reg props pp cells = (tr, inr sat) ->
  (li < length cells)%nat ->
  ((zgoc reg <= datum reg)%Q /\ (datum reg <= zwoc reg)%Q /\
   phase_used (pu_ reg) Liquid = true) /\
  (exists sw so sg,
     phaseSat (pu_ reg) sat Aqua li = Some sw /\
     phaseSat (pu_ reg) sat Liquid li = Some so /\
     phaseSat (pu_ reg) sat Vapour li = Some sg /\
     so = (1 - sw - sg)%Q /\
     (sw + so + sg == 1)%Q) /\
  (forall cell target incr,
     call_satFromPc (phase_pos (pu_ reg) Liquid) cell target incr ∉ tr).
Proof.
  intros Hdist Hrun Hli.
  destruct (phaseSaturations_inr _ _ _ _ _ _ Hrun) as (Hg & Hw & Hoil & Hloop).
  split; [done |]. split.
  - destruct (lookup_lt_is_Some_2 cells li Hli) as [c Hc].
    destruct (phaseSaturations_cell _ _ _ _ _ _ _ _ Hdist Hrun Hc)
      as (sw0 & sg0 & sw & sg & trc & _ & _ & Hsw & Hso & Hsg).
    exists sw, (1 - sw - sg)%Q, sg. repeat split; try done. ring.
  - intros cell target incr Hin.
    apply cellLoop_inv in Hloop as (_ & _ & _ & _ & Hcalls & _);
      [| done | done].
    destruct (Hcalls _ Hin)
      as (j & c & sw0 & sg0 & sw & sg & trc & _ & Hv & Hintrc).
    destruct Hv as (tr1 & tr2 & tr3 & -> & Hwv & Hgv & Hov).
    apply elem_of_cons in Hintrc as [[=] | Hintrc].
    assert (forall ph, phase_used (pu_ reg) ph = true -> ph <> Liquid ->
              phase_pos (pu_ reg) ph <> phase_pos (pu_ reg) Liquid)
      as Hne by (intros ph Hph Hd; by apply Hdist).
    destruct (phase_used (pu_ reg) Aqua) eqn:Hwat;
      destruct (phase_used (pu_ reg) Vapour) eqn:Hgas; simpl in Hov;
      try destruct (Qgt_bool (sg0 + sw0) 1);
      repeat match goal with
             | Hx : _ /\ _ |- _ => destruct Hx
             | Hx : ex _ |- _ => destruct Hx
             end; subst; simpl in Hintrc;
      repeat (apply elem_of_cons in Hintrc as [[=] | Hintrc]);
      try (by apply elem_of_nil in Hintrc);
      try (by eapply (Hne Aqua)); try (by eapply (Hne Vapour)).
Qed.

Lemma C1_witness :
  exists sw so sg,
    phaseSat pu3 demoSat3 Aqua 1 = Some sw /\
    phaseSat pu3 demoSat3 Liquid 1 = Some so /\
    phaseSat pu3 demoSat3 Vapour 1 = Some sg /\
    so = (1 - sw - sg)%Q /\
    (sw + so + sg == 1)%Q.
Proof.
  refine (proj1 (proj2 (C1_saturations_sum_to_one (helpers := linHelpers)
            (demoReg pu3) (linProps pu3) demoPress demoCells
            demoTrace3 demoSat3 1 pu3_distinct _ _))).
  - vm_compute. reflexivity.
  - simpl. lia.
Defined.



(** C3, as found.  With inverters that clamp to the bounds of
    [satRange], the second cell of the three-phase run has its overlap
    corrected: the gas saturation [1 - s_water = 3/4] exceeds the gas
    maximum [7/10] and the oil saturation [0] is below the oil minimum
    [1/10].  The bounds queried on line 153 are never read again. *)
Lemma C3_counterexample :
  helpers_clamped (helpers := linHelpers) (linProps pu3) /\
  (exists sg, entry demoSat3 2 1 = Some sg /\
              (snd (satRange (linProps pu3) 1%Z) 2%Z < sg)%Q) /\
  (exists so, entry demoSat3 1 1 = Some so /\
              (so < fst (satRange (linProps pu3) 1%Z) 1%Z)%Q) /\
  ~ within_satRange (helpers := linHelpers)
      (demoReg pu3) (linProps pu3) demoPress demoCells.
Proof.
  split; [apply linHelpers_clamped |].
  split; [by eexists; split; [vm_compute; reflexivity |] |].
  split; [by eexists; split; [vm_compute; reflexivity |] |].
  intros Hall.
  destruct (Hall demoTrace3 demoSat3 1%nat 1 Vapour demoRun3_eq
              eq_refl eq_refl) as (s & Hs & _ & Hhi).
  vm_compute in Hs. injection Hs as <-. by vm_compute in Hhi.
Qed.

(** C3, amended.  With inverters that return saturations within the
    bounds of [satRange], the water saturation of every cell lies within
    the water bounds, and the gas saturation lies within the gas bounds
    in every cell whose overlap is not corrected. *)
Theorem C3_inverted_saturations_within_satRange
    {helpers : EquilibrationHelpers}
    (reg : EquilReg) (props : BlackoilPropertiesInterface)
    (pp : PPress) (cells : list Z) (tr : list Call) (sat : PPress)
    (li : nat) (c : Z) :
  let waterpos := phase_pos (pu_ reg) Aqua in
  let gaspos := phase_pos (pu_ reg) Vapour in
  distinct_positions (pu_ reg) ->
  helpers_clamped props ->
  phaseSaturations reg props pp cells = (tr, inr sat) ->
  cells !! li = Some c ->
  (phase_used (pu_ reg) Aqua = true ->
   exists sw, entry sat waterpos li = Some sw /\
     (fst (satRange props c) waterpos <= sw
      /\ sw <= snd (satRange props c) waterpos)%Q) /\
  (phase_used (pu_ reg) Vapour = true ->
   ~ overlap_corrected tr li ->
   exists sg, entry sat gaspos li = Some sg /\
     (fst (satRange props c) gaspos <= sg
      /\ sg <= snd (satRange props c) gaspos)%Q).
Proof.
  intros waterpos gaspos Hdist [Hpc Hsum] Hrun Hc.
  destruct (phaseSaturations_cell _ _ _ _ _ _ _ _ Hdist Hrun Hc)
    as (sw0 & sg0 & sw & sg & trc & Hv & Htrc & Hsw & _ & Hsg).
  pose proof (cell_values_sum_call _ _ _ _ _ _ _ _ _ _ Hv) as Hcall.
  rewrite <- Htrc in Hcall. fold (overlap_corrected tr li) in Hcall.
  destruct Hv as (tr1 & tr2 & tr3 & _ & Hwv & Hgv & Hov).
  unfold phaseSat in Hsw, Hsg. split.
  - intros Hwat. rewrite Hwat in Hsw, Hwv, Hov.
    exists sw. split; [done |].
    destruct Hwv as (po & pw & _ & _ & Hinvw & _).
    destruct (phase_used (pu_ reg) Vapour && true && Qgt_bool (sg0 + sw0) 1).
    + destruct Hov as (pg & pw' & _ & _ & Hinvs & _). by eapply Hsum.
    + destruct Hov as (-> & _). by eapply Hpc.
  - intros Hgas Hno. rewrite Hgas in Hsg, Hgv, Hov, Hcall.
    exists sg. split; [done |].
    destruct Hgv as (pg & po & _ & _ & Hinvg & _).
    destruct (true && phase_used (pu_ reg) Aqua && Qgt_bool (sg0 + sw0) 1).
    + destruct Hno. by apply Hcall.
    + destruct Hov as (_ & -> & _). by eapply Hpc.
Qed.

Lemma C3_witness :
  (exists sw, entry demoSat3 0 0 = Some sw /\
     (fst (satRange (linProps pu3) 0%Z) 0%Z <= sw
      /\ sw <= snd (satRange (linProps pu3) 0%Z) 0%Z)%Q) /\
  (exists sg, entry demoSat3 2 0 = Some sg /\
     (fst (satRange (linProps pu3) 0%Z) 2%Z <= sg
      /\ sg <= snd (satRange (linProps pu3) 0%Z) 2%Z)%Q).
Proof.
  destruct (C3_inverted_saturations_within_satRange (helpers := linHelpers)
              (demoReg pu3) (linProps pu3) demoPress demoCells
              demoTrace3 demoSat3 0 0 pu3_distinct
              (linHelpers_clamped pu3) demoRun3_eq eq_refl) as [Hw Hg].
  split; [apply Hw; reflexivity |].
  apply Hg; [reflexivity | exact demo_first_cell_uncorrected].
Defined.

(** ** The loop raises no [std::runtime_error] of its own *)














(** C5.  The pass for a cell queries [satRange] and then, when water is
    active, inverts for the water position with the target
    [p_oil - p_water] and the decreasing direction, and, when gas is
    active, inverts for the gas position with the target [p_gas - p_oil]
    and the increasing direction, the pressures being those at the local
    index of the cell; any further call of the pass is the inversion of
    the sum.  Without overlap correction the results of the two
    inversions are the saturations written. *)
Theorem C5_inversion_targets {helpers : EquilibrationHelpers}
    (reg : EquilReg) (props : BlackoilPropertiesInterface)
    (pp : PPress) (cells : list Z) (tr : list Call) (sat : PPress)
    (li : nat) (c : Z) :
  let oilpos := phase_pos (pu_ reg) Liquid in
  let waterpos := phase_pos (pu_ reg) Aqua in
  let gaspos := phase_pos (pu_ reg) Vapour in
  distinct_positions (pu_ reg) ->
  phaseSaturations reg props pp cells = (tr, inr sat) ->
  cells !! li = Some c ->
  exists calls_w calls_g calls_o,
    cell_trace tr li = call_satRange c :: calls_w ++ calls_g ++ calls_o /\
    (if phase_used (pu_ reg) Aqua then
       exists po pw sw0,
         entry pp oilpos li = Some po /\ entry pp waterpos li = Some pw /\
         calls_w = [call_satFromPc waterpos c (po - pw)%Q false] /\
         satFromPc props waterpos c (po - pw)%Q false = Some sw0 /\
         (~ overlap_corrected tr li -> entry sat waterpos li = Some sw0)
     else calls_w = []) /\
    (if phase_used (pu_ reg) Vapour then
       exists pg po sg0,
         entry pp gaspos li = Some pg /\ entry pp oilpos li = Some po /\
         calls_g = [call_satFromPc gaspos c (pg - po)%Q true] /\
         satFromPc props gaspos c (pg - po)%Q true = Some sg0 /\
         (~ overlap_corrected tr li -> entry sat gaspos li = Some sg0)
     else calls_g = []) /\
    Forall (fun call => is_sum_inversion call = true) calls_o.
Proof.
  intros oilpos waterpos gaspos Hdist Hrun Hc.
  destruct (phaseSaturations_cell _ _ _ _ _ _ _ _ Hdist Hrun Hc)
    as (sw0 & sg0 & sw & sg & trc & Hv & Htrc & Hsw & _ & Hsg).
  pose proof (cell_values_sum_call _ _ _ _ _ _ _ _ _ _ Hv) as Hcall.
  rewrite <- Htrc in Hcall. fold (overlap_corrected tr li) in Hcall.
  destruct Hv as (tr1 & tr2 & tr3 & Heq & Hwv & Hgv & Hov).
  exists tr1, tr2, tr3. split; [by rewrite Htrc |].
  unfold phaseSat in Hsw, Hsg.
  assert (~ overlap_corrected tr li -> sw = sw0 /\ sg = sg0) as Hkeep.
  { intros Hno.
    destruct (phase_used (pu_ reg) Vapour && phase_used (pu_ reg) Aqua
              && Qgt_bool (sg0 + sw0) 1).
    - destruct Hno. by apply Hcall.
    - by destruct Hov as (-> & -> & _). }
  split; [| split].
  - destruct (phase_used (pu_ reg) Aqua); [| by destruct Hwv].
    destruct Hwv as (po & pw & Hpo & Hpw & Hinv & ->).
    exists po, pw, sw0. repeat split; try done.
    intros Hno. by destruct (Hkeep Hno) as [<- _].
  - destruct (phase_used (pu_ reg) Vapour); [| by destruct Hgv].
    destruct Hgv as (pg & po & Hpg & Hpo & Hinv & ->).
    exists pg, po, sg0. repeat split; try done.
    intros Hno. by destruct (Hkeep Hno) as [_ <-].
  - destruct (phase_used (pu_ reg) Vapour && phase_used (pu_ reg) Aqua
              && Qgt_bool (sg0 + sw0) 1).
    + destruct Hov as (pg & pw & _ & _ & _ & _ & ->). by repeat constructor.
    + destruct Hov as (_ & _ & ->). constructor.
Qed.

Lemma C5_witness :
  exists calls_w calls_g calls_o,
    cell_trace demoTrace3 0 = call_satRange 0 :: calls_w ++ calls_g ++ calls_o /\
    (exists po pw sw0,
       entry demoPress 1 0 = Some po /\ entry demoPress 0 0 = Some pw /\
       calls_w = [call_satFromPc 0 0 (po - pw)%Q false] /\
       satFromPc (EquilibrationHelpers := linHelpers)
         (linProps pu3) 0 0 (po - pw)%Q false = Some sw0 /\
       (~ overlap_corrected demoTrace3 0 -> entry demoSat3 0 0 = Some sw0)) /\
    (exists pg po sg0,
       entry demoPress 2 0 = Some pg /\ entry demoPress 1 0 = Some po /\
       calls_g = [call_satFromPc 2 0 (pg - po)%Q true] /\
       satFromPc (EquilibrationHelpers := linHelpers)
         (linProps pu3) 2 0 (pg - po)%Q true = Some sg0 /\
       (~ overlap_corrected demoTrace3 0 -> entry demoSat3 2 0 = Some sg0)) /\
    Forall (fun call => is_sum_inversion call = true) calls_o.
Proof.
  refine (C5_inversion_targets (helpers := linHelpers)
            (demoReg pu3) (linProps pu3) demoPress demoCells
            demoTrace3 demoSat3 0 0 pu3_distinct _ _).
  - vm_compute. reflexivity.
  - reflexivity.
Defined.

(** ** Pure oil *)

Lemma only_queries tr :
  (forall call, call ∈ tr -> is_inversion call = false) ->
  tr = map call_satRange (satRange_queries tr).
Proof.
  induction tr as [| call tr IH]; intros Hall; [done |].
  assert (is_inversion call = false) as Hcall by (apply Hall; constructor).
  destruct call; try discriminate. simpl. f_equal.
  apply IH. intros call' Hin. apply Hall. by constructor.
Qed.

(** C7.  In a region where neither water nor gas is active, when the
    two preconditions hold and the pressure table has the oil row for
    the cells, [phaseSaturations] returns whatever the inverters are: its
    only calls are the queries of [satRange], one per cell, and the oil
    saturation of every cell is [1 - 0 - 0], that is one. *)
Theorem C7_pure_oil {helpers : EquilibrationHelpers}
    (reg : EquilReg) (props : BlackoilPropertiesInterface)
    (pp : PPress) (cells : list Z) :
  let oilpos := phase_pos (pu_ reg) Liquid in
  (zgoc reg <= datum reg)%Q -> (datum reg <= zwoc reg)%Q ->
  phase_used (pu_ reg) Liquid = true ->
  phase_used (pu_ reg) Aqua = false ->
  phase_used (pu_ reg) Vapour = false ->
  (forall li, (li < length cells)%nat ->
     0 <= oilpos /\ is_Some (entry pp oilpos li)) ->
  exists sat,
    phaseSaturations reg props pp cells
    = (map call_satRange cells, inr sat) /\
    (forall li, (li < length cells)%nat ->
       exists so, entry sat oilpos li = Some so /\
                  so = (1 - 0 - 0)%Q /\ (so == 1)%Q) /\
    (forall call, call ∈ map call_satRange cells ->
       is_inversion call = false).
Proof.
  intros oilpos Hg Hw Hoil Hwat Hgas Hshape.
  assert (distinct_positions (pu_ reg)) as Hdist.
  { intros [] [] Ha Hb Hne; congruence. }
  destruct (phaseSaturations_returns reg props pp cells) as [sat Hsat];
    try done.
  { intros [Hx | Hx]; congruence. }
  { intros [] i Hph Hi; try congruence. by apply Hshape. }
  destruct (phaseSaturations reg props pp cells) as [tr r] eqn:Hrun.
  simpl in Hsat. subst r. exists sat.
  pose proof (phaseSaturations_inr _ _ _ _ _ _ Hrun) as (_ & _ & _ & Hloop).
  apply cellLoop_inv in Hloop as (_ & _ & _ & Hq & Hcalls & _);
    [| done | done].
  assert (forall call, call ∈ tr -> is_inversion call = false) as Hnone.
  { intros call Hin.
    destruct (Hcalls call Hin)
      as (j & c & sw0 & sg0 & sw & sg & trc & _ & Hv & Hintrc).
    destruct Hv as (tr1 & tr2 & tr3 & -> & Hwv & Hgv & Hov).
    rewrite Hwat in Hwv, Hov. rewrite Hgas in Hgv, Hov. simpl in Hov.
    destruct Hwv as [_ ->], Hgv as [_ ->], Hov as (_ & _ & ->).
    by apply list_elem_of_singleton in Hintrc as ->. }
  assert (tr = map call_satRange cells) as ->.
  { rewrite <- Hq. by apply only_queries. }
  split; [done |]. split; [| done].
  intros li Hli.
  destruct (lookup_lt_is_Some_2 cells li Hli) as [c Hc].
  destruct (phaseSaturations_cell _ _ _ _ _ _ _ _ Hdist Hrun Hc)
    as (sw0 & sg0 & sw & sg & trc & Hv & _ & _ & Hso & _).
  destruct (cell_values_inactive _ _ _ _ _ _ _ _ _ _ Hv) as [Hsw0 Hsg0].
  rewrite (Hsw0 Hwat), (Hsg0 Hgas) in Hso.
  unfold phaseSat in Hso. rewrite Hoil in Hso.
  exists (1 - 0 - 0)%Q. split; [done |]. split; [done | ring].
Qed.

Lemma C7_witness :
  exists sat,
    demoRunOil = (map call_satRange demoCells, inr sat) /\
    (forall li, (li < length demoCells)%nat ->
       exists so, entry sat 0 li = Some so /\
                  so = (1 - 0 - 0)%Q /\ (so == 1)%Q) /\
    (forall call, call ∈ map call_satRange demoCells ->
       is_inversion call = false).
Proof.
  refine (C7_pure_oil (helpers := failingHelpers)
            (demoReg pu_oil) (linProps pu_oil) [ [200; 201] ]%Q demoCells
            _ _ _ _ _ _).
  - by vm_compute.
  - by vm_compute.
  - reflexivity.
  - reflexivity.
  - reflexivity.
  - intros [| [| li]] Hli; simpl in Hli; try lia;
      (split; [by vm_compute | by eexists]).
Defined.



(* ===================================================================== *)
(** * The driver                                                          *)
(* ===================================================================== *)

(** ** Scattering one region *)

Lemma scatterCells_inv cells : forall s d tr d',
  scatterCells cells s d = (tr, inr d') ->
  tr = [] /\ length d' = length d /\
  (forall i c, cells !! i = Some c ->
     0 <= c < Z.of_nat (length d) /\ is_Some (s !! i)) /\
  (NoDup cells -> forall i c, cells !! i = Some c ->
     d' !! Z.to_nat c = s !! i) /\
  (forall k, (forall c, c ∈ cells -> Z.to_nat c <> k) -> d' !! k = d !! k).
Proof.
  induction cells as [| c rest IH]; intros s d tr d'; simpl.
  { intros [= <- <-]. repeat split; done. }
  destruct s as [| x s']; [discriminate |].
  intros (tr1 & d1 & tr2 & Hset & Hrest & ->)%bind_inr.
  apply vec_set_inr in Hset as (-> & Hc & ->).
  apply IH in Hrest as (-> & Hlen & Hrange & Hvals & Hframe).
  rewrite length_insert in Hlen, Hrange.
  split; [done |]. split; [done |]. split; [| split].
  - intros [| i] c0 Hi; simpl in Hi.
    + injection Hi as <-. split; [done | by eexists].
    + by apply (Hrange i c0).
  - intros [Hnotin Hnd]%NoDup_cons i c0 Hi.
    destruct i as [| i]; simpl in Hi.
    + injection Hi as <-. rewrite Hframe.
      * simpl. apply list_lookup_insert_eq. lia.
      * intros c' Hc' Heq.
        destruct (list_elem_of_lookup_1 _ _ Hc') as [j Hj].
        destruct (Hrange j c' Hj) as [Hc'r _].
        assert (c' = c) as -> by lia. done.
    + simpl. by apply Hvals.
  - intros k Hk. rewrite Hframe.
    + apply list_lookup_insert_ne. apply Hk. constructor.
    + intros c' Hc'. apply Hk. by constructor.
Qed.


Lemma scatterPhase_inv cells res dst p tr dst' :
  scatterPhase cells res dst p = (tr, inr dst') ->
  tr = [] /\ 0 <= p /\
  exists d s d',
    dst !! Z.to_nat p = Some d /\ res !! Z.to_nat p = Some s /\
    scatterCells cells s d = ([], inr d') /\
    dst' = <[Z.to_nat p := d']> dst.
Proof.
  unfold scatterPhase.
  intros (tr1 & d & tr2 & Hd & Hk & ->)%bind_inr.
  apply bind_inr in Hk as (tr3 & s & tr4 & Hs & Hk & ->).
  apply bind_inr in Hk as (tr5 & d' & tr6 & Hsc & Hset & ->).
  apply vec_at_inr in Hd as (-> & Hp & Hd).
  apply vec_at_inr in Hs as (-> & _ & Hs).
  apply vec_set_inr in Hset as (-> & _ & ->).
  pose proof (scatterCells_inv _ _ _ _ _ Hsc) as (-> & _).
  split; [done |]. split; [done |]. by exists d, s, d'.
Qed.

Lemma scatter_rows cells res ps : forall dst tr dst',
  foldM (scatterPhase cells res) ps dst = (tr, inr dst') ->
  NoDup ps ->
  tr = [] /\ length dst' = length dst /\
  (forall p, p ∈ ps ->
     0 <= p /\
     exists d s d',
       dst !! Z.to_nat p = Some d /\ res !! Z.to_nat p = Some s /\
       scatterCells cells s d = ([], inr d') /\
       dst' !! Z.to_nat p = Some d') /\
  (forall q, (forall p, p ∈ ps -> Z.to_nat p <> q) -> dst' !! q = dst !! q).
Proof.
  induction ps as [| p ps IH]; intros dst tr dst'; simpl.
  { intros [= <- <-] _. split; [done |]. split; [done |].
    split; [| done]. intros p Hp. by apply elem_of_nil in Hp. }
  intros (tr1 & dst1 & tr2 & Hstep & Hrest & ->)%bind_inr
         [Hnotin Hnd]%NoDup_cons.
  apply scatterPhase_inv in Hstep
    as (-> & Hp & d & s & d' & Hd & Hs & Hsc & ->).
  apply IH in Hrest as (-> & Hlen & Hrows & Hframe); [| done].
  rewrite length_insert in Hlen.
  assert (forall q, q ∈ ps -> Z.to_nat q <> Z.to_nat p) as Hne.
  { intros q Hq Heq. destruct (Hrows q Hq) as [Hq0 _].
    assert (q = p) as -> by lia. done. }
  split; [done |]. split; [done |]. split.
  - intros q [-> | Hq]%elem_of_cons.
    + split; [done |]. exists d, s, d'. repeat split; try done.
      rewrite Hframe by done.
      apply list_lookup_insert_eq. by apply lookup_lt_Some in Hd.
    + destruct (Hrows q Hq) as (Hq0 & dq & sq & dq' & Hdq & Hsq & Hscq & Hq').
      split; [done |]. exists dq, sq, dq'. repeat split; try done.
      rewrite list_lookup_insert_ne in Hdq; [done |].
      intros Heq. by apply (Hne q Hq).
  - intros q Hq. rewrite Hframe.
    + apply list_lookup_insert_ne. apply Hq. constructor.
    + intros p' Hp'. apply Hq. by constructor.
Qed.

Lemma scatter_inv np cells res dst tr dst' :
  scatter np cells res dst = (tr, inr dst') ->
  tr = [] /\
  (forall p i c, 0 <= p < np -> cells !! i = Some c ->
     0 <= c /\ is_Some (entry res p i)) /\
  (NoDup cells -> forall p i c, 0 <= p < np -> cells !! i = Some c ->
     entry dst' p (Z.to_nat c) = entry res p i) /\
  (forall p k, (forall c, c ∈ cells -> Z.to_nat c <> k) ->
     entry dst' p k = entry dst p k).
Proof.
  unfold scatter. intros Hfold.
  apply scatter_rows in Hfold as (-> & Hlen & Hrows & Hframe);
    [| apply NoDup_seqZ].
  split; [done |].
  assert (forall p, 0 <= p < np ->
            exists d s d',
              dst !! Z.to_nat p = Some d /\ res !! Z.to_nat p = Some s /\
              scatterCells cells s d = ([], inr d') /\
              dst' !! Z.to_nat p = Some d') as Hrow.
  { intros p Hp. apply Hrows, elem_of_seqZ. lia. }
  split; [| split].
  - intros p i c Hp Hi.
    destruct (Hrow p Hp) as (d & s & d' & Hd & Hs & Hsc & Hd').
    apply scatterCells_inv in Hsc as (_ & _ & Hrange & _).
    destruct (Hrange i c Hi) as [Hc Hsi]. split; [lia |].
    unfold entry. destruct (Z.ltb_spec p 0); [lia |]. by rewrite Hs.
  - intros Hnd p i c Hp Hi.
    destruct (Hrow p Hp) as (d & s & d' & Hd & Hs & Hsc & Hd').
    apply scatterCells_inv in Hsc as (_ & _ & _ & Hvals & _).
    unfold entry. destruct (Z.ltb_spec p 0); [lia |].
    rewrite Hd', Hs. by apply Hvals.
  - intros p k Hk. unfold entry.
    destruct (Z.ltb_spec p 0) as [| Hp0]; [done |].
    destruct (decide (p < np)) as [Hp | Hp].
    + destruct (Hrow p (conj Hp0 Hp)) as (d & s & d' & Hd & Hs & Hsc & Hd').
      apply scatterCells_inv in Hsc as (_ & _ & _ & _ & Hfr).
      rewrite Hd', Hd. by apply Hfr.
    + rewrite Hframe; [done |].
      intros q Hq%elem_of_seqZ. lia.
Qed.



(** ** The loop over the regions *)

Section RegionFold.
Variable rm : RegionMapping.
Variable np : Z.
Variable St : Type.
Variable get : St -> PPress.
Variable step : St -> Z -> M St.
Variable value : Z -> PPress -> Prop.

Hypothesis step_scatters : forall st r tr st',
  step st r = (tr, inr st') ->
  exists res tr0,
    value r res /\
    scatter np (cells rm r) res (get st) = (tr0, inr (get st')).

End RegionFold.

Section DriverFacts.
Context {helpers : EquilibrationHelpers} {collab : EquilCollaborators}.
Variable rm : RegionMapping.
Variable rec : list EquilRecord.
Variable props : BlackoilPropertiesInterface.
Variable G : UnstructuredGrid.
Variable grav : Q.

Abbreviation np := (numPhases props).

Lemma bindRegion_inv r tr cs eqreg :
  bindRegion rm rec props r = (tr, inr (cs, eqreg)) ->
  tr = [] /\ cs = cells rm r.
Proof.
  unfold bindRegion.
  intros (tr1 & repcell & tr2 & Hrep & Hk & ->)%bind_inr.
  apply bind_inr in Hk as (tr3 & rec_r & tr4 & Hrec & Hret & ->).
  apply vec_at_inr in Hrep as (-> & _). apply vec_at_inr in Hrec as (-> & _).
  by injection Hret as <- <- <-.
Qed.

Lemma of_option_inr {A} (r : option A) tr a :
  of_option r = (tr, inr a) -> tr = [] /\ r = Some a.
Proof. destruct r; [| discriminate]. by intros [= <- <-]. Qed.

Lemma calcPressII_region_inv st r tr st' :
  calcPressII_region rm rec props G grav st r = (tr, inr st') ->
  exists press tr0,
    region_pressures rm rec props G grav r press /\
    scatter np (cells rm r) press (fst st) = (tr0, inr (fst st')) /\
    snd st' = snd st /\ tr = [].
Proof.
  destruct st as [pp sat]. unfold calcPressII_region.
  intros (tr1 & [cs eqreg] & tr2 & Hbind & Hk & ->)%bind_inr.
  apply bind_inr in Hk as (tr3 & press & tr4 & Hpress & Hk & ->).
  apply bind_inr in Hk as (tr5 & pp' & tr6 & Hsc & Hret & ->).
  destruct (bindRegion_inv _ _ _ _ Hbind) as [-> ->].
  apply of_option_inr in Hpress as [-> Hpress].
  injection Hret as <- <-.
  pose proof (scatter_inv _ _ _ _ _ _ Hsc) as (-> & _).
  exists press, []. split; [by exists eqreg |]. done.
Qed.

Lemma calcSat_region_inv st r tr st' :
  calcSat_region rm rec props G grav st r = (tr, inr st') ->
  exists eqreg press sats tr1 tr2,
    bindRegion rm rec props r = ([], inr (cells rm r, eqreg)) /\
    phasePressures G eqreg (cells rm r) grav = Some press /\
    phaseSaturations eqreg props press (cells rm r) = (tr, inr sats) /\
    scatter np (cells rm r) press (fst st) = (tr1, inr (fst st')) /\
    scatter np (cells rm r) sats (snd st) = (tr2, inr (snd st')).
Proof.
  destruct st as [pp sat]. unfold calcSat_region.
  intros (tr1 & [cs eqreg] & tr2 & Hbind & Hk & ->)%bind_inr.
  apply bind_inr in Hk as (tr3 & press & tr4 & Hpress & Hk & ->).
  apply bind_inr in Hk as (tr5 & sats & tr6 & Hsat & Hk & ->).
  apply bind_inr in Hk as (tr7 & pp' & tr8 & Hsc1 & Hk & ->).
  apply bind_inr in Hk as (tr9 & sat' & tr10 & Hsc2 & Hret & ->).
  destruct (bindRegion_inv _ _ _ _ Hbind) as [-> ->].
  apply of_option_inr in Hpress as [-> Hpress].
  injection Hret as <- <-.
  pose proof (scatter_inv _ _ _ _ _ _ Hsc1) as (-> & _).
  pose proof (scatter_inv _ _ _ _ _ _ Hsc2) as (-> & _).
  exists eqreg, press, sats, [], []. simpl. rewrite !app_nil_r.
  done.
Qed.

End DriverFacts.






(* ===================================================================== *)
(** * [equilnum]                                                          *)
(* ===================================================================== *)

(** C8.  Without the field EQLNUM, [equilnum] returns a vector with one
    entry per cell of the grid, every entry being 0; with the field, it
    returns the integer array of the deck as it is. *)
Theorem C8_equilnum_default (deck : EclipseGridParser)
    (G : UnstructuredGrid) :
  (hasField deck "EQLNUM" = false -> 0 <= number_of_cells G ->
   exists eqlnum,
     equilnum deck G = ([], inr eqlnum) /\
     Z.of_nat (length eqlnum) = number_of_cells G /\
     (forall c, 0 <= c < number_of_cells G ->
        eqlnum !! Z.to_nat c = Some 0) /\
     Forall (fun r => r = 0) eqlnum) /\
  (hasField deck "EQLNUM" = true ->
   equilnum deck G = ([], inr (getIntegerValue deck "EQLNUM"))).
Proof.
  unfold equilnum. split.
  - intros -> Hn. unfold vec_make.
    destruct (Z.ltb_spec (number_of_cells G) 0); [lia |].
    eexists. split; [reflexivity |]. split; [| split].
    + rewrite length_replicate. lia.
    + intros c Hc. apply lookup_replicate_2. lia.
    + apply Forall_forall. by intros r [-> _]%elem_of_replicate.
  - by intros ->.
Qed.

Lemma C8_witness :
  (exists eqlnum,
     equilnum demoDeckNoRegions demoGrid = ([], inr eqlnum) /\
     Z.of_nat (length eqlnum) = 3 /\
     (forall c, 0 <= c < 3 -> eqlnum !! Z.to_nat c = Some 0) /\
     Forall (fun r => r = 0) eqlnum) /\
  equilnum demoDeck demoGrid = ([], inr [0; 1; 0]).
Proof.
  split.
  - apply (proj1 (C8_equilnum_default demoDeckNoRegions demoGrid));
      [reflexivity | simpl; lia].
  - apply (proj2 (C8_equilnum_default demoDeck demoGrid)). reflexivity.
Defined.

(* ===================================================================== *)
(** * [FVVelocity2P]                                                      *)
(* ===================================================================== *)

(** C10, as found.  With the indices 0, 1 and 2, the formulation 3 is
    none of the enumerated choices, yet the constructor returns; the
    store of [calculateVelocity] then leaves the velocities of the face
    as they were. *)
Lemma C10_counterexample :
  ~ enumerated (indices := dumuxIndices) (tagOf false 3) /\
  FVVelocity2P_ctor (indices := dumuxIndices) (tagOf false 3)
  = ([], inr tt) /\
  forall pressureType velocityW velocityNW fv,
    storeVelocities (indices := dumuxIndices) (tagOf false 3)
      pressureType velocityW velocityNW fv = fv.
Proof.
  split; [| split].
  - intros [H | [H | H]]; vm_compute in H; discriminate.
  - reflexivity.
  - reflexivity.
Qed.

(** C10, amended.  The formulation is the constant [velocityType_] of the
    type tag.  After the base constructor, the constructor raises
    [NotImplemented] when compressibility is enabled with the total
    velocity, and when the formulation is the sentinel [other]; for an
    enumerated formulation without that combination it returns.  The
    store of [calculateVelocity] only dispatches on the formulation: for
    each of the three choices it is the assignment of that choice. *)
Theorem C10_velocity_formulation_check {indices : TwoPCommon}
    (tag : TypeTag) :
  FVPressure2P_ctor tag = Some tt ->
  indices_wf ->
  (EnableCompressibility tag = true -> velocityType_ tag = vt ->
   FVVelocity2P_ctor tag
   = ([], inl (NotImplemented
        "Total velocity - global pressure - model cannot be used with compressible fluids!"))) /\
  (velocityType_ tag = other ->
   FVVelocity2P_ctor tag
   = ([], inl (NotImplemented "Velocity type not supported!"))) /\
  (enumerated tag ->
   ~ (EnableCompressibility tag = true /\ velocityType_ tag = vt) ->
   FVVelocity2P_ctor tag = ([], inr tt)) /\
  (forall pressureType velocityW velocityNW fv,
     (velocityType_ tag = vw ->
      storeVelocities tag pressureType velocityW velocityNW fv
      = {| velocity := velocityW; velocitySecondPhase := velocityNW |}) /\
     (velocityType_ tag = vn ->
      storeVelocities tag pressureType velocityW velocityNW fv
      = {| velocity := velocityNW; velocitySecondPhase := velocityW |}) /\
     (velocityType_ tag = vt ->
      storeVelocities tag pressureType velocityW velocityNW fv
      = if (pressureType =? pw) || (pressureType =? pn)
        then {| velocity := vadd velocityW velocityNW;
                velocitySecondPhase := velocitySecondPhase fv |}
        else fv)).
Proof.
  intros Hbase (Hwn & Hwt & Hnt & Hwo & Hno & Hto).
  unfold FVVelocity2P_ctor. rewrite Hbase. simpl.
  split; [| split; [| split]].
  - intros -> ->. by rewrite Z.eqb_refl.
  - intros ->. rewrite Z.eqb_refl.
    destruct (Z.eqb_spec other vt) as [Heq | _]; [by destruct Hto |].
    by rewrite andb_false_r.
  - intros Henum Hnot.
    destruct (Z.eqb_spec (velocityType_ tag) vt) as [Heq | Hne].
    + destruct (EnableCompressibility tag); [by destruct Hnot |]. simpl.
      destruct (Z.eqb_spec (velocityType_ tag) other); [congruence | done].
    + rewrite andb_false_r.
      destruct (Z.eqb_spec (velocityType_ tag) other) as [Heq |]; [| done].
      destruct Henum as [H | [H | H]]; congruence.
  - intros pressureType velocityW velocityNW fv. unfold storeVelocities.
    split; [| split]; intros ->; rewrite ?Z.eqb_refl.
    + destruct (Z.eqb_spec vw vn); [done |].
      by destruct (Z.eqb_spec vw vt).
    + destruct (Z.eqb_spec vn vw); [congruence |].
      by destruct (Z.eqb_spec vn vt).
    + destruct (Z.eqb_spec vt vw); [congruence |].
      by destruct (Z.eqb_spec vt vn); [congruence |].
Qed.

Lemma C10_witness :
  FVVelocity2P_ctor (indices := dumuxIndices) (tagOf true 2)
  = ([], inl (NotImplemented
       "Total velocity - global pressure - model cannot be used with compressible fluids!")) /\
  FVVelocity2P_ctor (indices := dumuxIndices) (tagOf false 999)
  = ([], inl (NotImplemented "Velocity type not supported!")) /\
  FVVelocity2P_ctor (indices := dumuxIndices) (tagOf true 1) = ([], inr tt).
Proof.
  assert (indices_wf (indices := dumuxIndices)) as Hwf
    by (repeat split; vm_compute; discriminate).
  split; [| split].
  - apply (C10_velocity_formulation_check (indices := dumuxIndices)
             (tagOf true 2) eq_refl Hwf); reflexivity.
  - apply (C10_velocity_formulation_check (indices := dumuxIndices)
             (tagOf false 999) eq_refl Hwf); reflexivity.
  - apply (C10_velocity_formulation_check (indices := dumuxIndices)
             (tagOf true 1) eq_refl Hwf).
    + right. left. reflexivity.
    + intros [_ H]. vm_compute in H. discriminate.
Defined.

(* ===================================================================== *)
(** * Further properties of [phaseSaturations]                            *)
(* ===================================================================== *)

Section WrittenEntries.
Context {helpers : EquilibrationHelpers}.
Variable reg : EquilReg.
Variable props : BlackoilPropertiesInterface.
Variable pp : PPress.

Abbreviation pu := (pu_ reg).

(** One pass writes in column [li] only, and only in rows that are
    positions of active phases. *)
Lemma cellStep_frame ps li c tr ps' :
  phase_used pu Liquid = true ->
  cellStep reg props pp ps li c = (tr, inr ps') ->
  forall p i, i <> li \/ ~ active_position pu p ->
    entry ps' p i = entry ps p i.
Proof.
  unfold cellStep.
  intros Hoil (tr0 & [] & trA & [= <-] & HA & ->)%bind_inr p i Hpi.
  destruct (satRange props c) as [smin smax].
  apply bind_inr in HA as (trw & [sw0 ps1] & trB & Hw & HB & ->).
  apply bind_inr in HB as (trg & [sg0 ps2] & trC & Hg & HC & ->).
  apply bind_inr in HC as (tro & [[sw sg] ps3] & trD & Ho & HD & ->).
  apply tab_set_inr in HD as (-> & Hopos & Hosome & ->).
  assert (forall ph, phase_used pu ph = true ->
            phase_pos pu ph <> p \/ li <> i) as Hne.
  { intros ph Hph. destruct Hpi as [Hi | Hp]; [by right |].
    left. intros Heq. apply Hp. by exists ph. }
  pose proof (Hne Liquid Hoil) as Hno.
  destruct (phase_used pu Aqua) eqn:Hwat;
    destruct (phase_used pu Vapour) eqn:Hgas; simpl in Ho;
    try destruct (Qgt_bool (sg0 + sw0) 1) eqn:Hov;
    repeat inv_step;
    try pose proof (Hne Aqua Hwat) as Hnw;
    try pose proof (Hne Vapour Hgas) as Hng;
    by rewrite ?entry_upd_ne by done.
Qed.

Lemma cellLoop_frame cells : forall li0 ps0 tr sat,
  phase_used pu Liquid = true ->
  cellLoop reg props pp cells li0 ps0 = (tr, inr sat) ->
  forall p i,
    (i < li0)%nat \/ (li0 + length cells <= i)%nat \/ ~ active_position pu p ->
    entry sat p i = entry ps0 p i.
Proof.
  induction cells as [| c rest IH]; intros li0 ps0 tr sat Hoil; simpl.
  { by intros [= <- <-]. }
  intros (tr1 & ps1 & tr2 & Hstep & Hloop & ->)%bind_inr p i Hpi.
  rewrite (IH _ _ _ _ Hoil Hloop) by (destruct Hpi as [|[|]]; auto with lia).
  apply (cellStep_frame _ _ _ _ _ Hoil Hstep).
  destruct Hpi as [|[|]]; auto with lia.
Qed.
End WrittenEntries.

Section FurtherFacts.
Context {helpers : EquilibrationHelpers}.
Variable reg : EquilReg.
Variable props : BlackoilPropertiesInterface.

Abbreviation pu := (pu_ reg).

(** What a pass computes depends on the pressures of its own column only. *)
Lemma cell_values_fun pp pp' li li' c sw0 sg0 sw sg trc sw0' sg0' sw' sg' trc' :
  (forall ph, phase_used pu ph = true ->
     entry pp (phase_pos pu ph) li = entry pp' (phase_pos pu ph) li') ->
  phase_used pu Liquid = true ->
  cell_values reg props pp li c sw0 sg0 sw sg trc ->
  cell_values reg props pp' li' c sw0' sg0' sw' sg' trc' ->
  sw0 = sw0' /\ sg0 = sg0' /\ sw = sw' /\ sg = sg' /\ trc = trc'.
Proof.
  intros Hsame Hoil (tr1 & tr2 & tr3 & -> & Hw & Hg & Ho)
         (tr1' & tr2' & tr3' & -> & Hw' & Hg' & Ho').
  pose proof (Hsame Liquid Hoil) as Hso.
  assert (sw0 = sw0' /\ tr1 = tr1') as [<- <-].
  { destruct (phase_used pu Aqua) eqn:Hwat.
    - pose proof (Hsame Aqua Hwat) as Hsw.
      destruct Hw as (po & pw & Hpo & Hpw & Hinv & ->).
      destruct Hw' as (po' & pw' & Hpo' & Hpw' & Hinv' & ->).
      assert (po' = po) as -> by congruence.
      assert (pw' = pw) as -> by congruence.
      split; congruence.
    - destruct Hw as [-> ->], Hw' as [-> ->]. done. }
  assert (sg0 = sg0' /\ tr2 = tr2') as [<- <-].
  { destruct (phase_used pu Vapour) eqn:Hgas.
    - pose proof (Hsame Vapour Hgas) as Hsg.
      destruct Hg as (pg & po & Hpg & Hpo & Hinv & ->).
      destruct Hg' as (pg' & po' & Hpg' & Hpo' & Hinv' & ->).
      assert (po' = po) as -> by congruence.
      assert (pg' = pg) as -> by congruence.
      split; congruence.
    - destruct Hg as [-> ->], Hg' as [-> ->]. done. }
  destruct (phase_used pu Vapour) eqn:Hgas;
    destruct (phase_used pu Aqua) eqn:Hwat; simpl in Ho, Ho';
    try destruct (Qgt_bool (sg0 + sw0) 1);
    try (by destruct Ho as (-> & -> & ->), Ho' as (-> & -> & ->)).
  pose proof (Hsame Aqua Hwat) as Hsw. pose proof (Hsame Vapour Hgas) as Hsg.
  destruct Ho as (pg & pw & Hpg & Hpw & Hinv & -> & ->).
  destruct Ho' as (pg' & pw' & Hpg' & Hpw' & Hinv' & -> & ->).
  assert (pg' = pg) as -> by congruence.
  assert (pw' = pw) as -> by congruence.
  assert (sw' = sw) as -> by congruence. done.
Qed.

Lemma cellStep_shape pp ps li c tr ps' :
  cellStep reg props pp ps li c = (tr, inr ps') ->
  forall p i, is_Some (entry ps' p i) <-> is_Some (entry ps p i).
Proof.
  unfold cellStep.
  intros (tr0 & [] & trA & [= <-] & HA & ->)%bind_inr p i.
  destruct (satRange props c) as [smin smax].
  apply bind_inr in HA as (trw & [sw0 ps1] & trB & Hw & HB & ->).
  apply bind_inr in HB as (trg & [sg0 ps2] & trC & Hg & HC & ->).
  apply bind_inr in HC as (tro & [[sw sg] ps3] & trD & Ho & HD & ->).
  apply tab_set_inr in HD as (-> & Hopos & Hosome & ->).
  destruct (phase_used pu Aqua) eqn:Hwat;
    destruct (phase_used pu Vapour) eqn:Hgas; simpl in Ho;
    try destruct (Qgt_bool (sg0 + sw0) 1) eqn:Hov;
    repeat inv_step; by rewrite ?entry_upd_is_Some by done.
Qed.

Lemma cellLoop_shape pp cells : forall li0 ps0 tr sat,
  cellLoop reg props pp cells li0 ps0 = (tr, inr sat) ->
  forall p i, is_Some (entry sat p i) <-> is_Some (entry ps0 p i).
Proof.
  induction cells as [| c rest IH]; intros li0 ps0 tr sat; simpl.
  { by intros [= <- <-]. }
  intros (tr1 & ps1 & tr2 & Hstep & Hloop & ->)%bind_inr p i.
  rewrite (IH _ _ _ _ Hloop). by apply (cellStep_shape _ _ _ _ _ _ Hstep).
Qed.
End FurtherFacts.

(** X1.  A returning run of [phaseSaturations] has written only the
    entries of active phases at the local indices of the cell range: the
    result has the entries of the pressure table it was copied from in
    every row that is no position of an active phase and in every column
    past the range, and it has an entry exactly where that table has. *)
Theorem phaseSaturations_writes_only_active_cells
    {helpers : EquilibrationHelpers}
    (reg : EquilReg) (props : BlackoilPropertiesInterface)
    (pp : PPress) (cells : list Z) (tr : list Call) (sat : PPress) :
  phaseSaturations reg props pp cells = (tr, inr sat) ->
  (forall p i,
     (length cells <= i)%nat \/ ~ active_position (pu_ reg) p ->
     entry sat p i = entry pp p i) /\
  (forall p i, is_Some (entry sat p i) <-> is_Some (entry pp p i)).
Proof.
  intros (_ & _ & Hoil & Hloop)%phaseSaturations_inr. split.
  - intros p i Hpi. apply (cellLoop_frame _ _ _ _ _ _ _ _ Hoil Hloop).
    simpl. tauto.
  - by apply (cellLoop_shape _ _ _ _ _ _ _ _ Hloop).
Qed.

Lemma phaseSaturations_writes_only_active_cells_witness :
  entry demoSatWide 3 0 = Some 10%Q /\
  entry demoSatWide 0 2 = Some 7%Q /\
  (is_Some (entry demoSatWide 1 2) <-> is_Some (entry demoPressWide 1 2)).
Proof.
  destruct (phaseSaturations_writes_only_active_cells
              (helpers := linHelpers) (demoReg pu3) (linProps pu3)
              demoPressWide demoCells (trace demoRunWide) demoSatWide)
    as [Hframe Hshape].
  { vm_compute. reflexivity. }
  split; [| split].
  - rewrite Hframe; [reflexivity |]. right.
    intros ([] & _ & Hpos); vm_compute in Hpos; discriminate.
  - rewrite Hframe; [reflexivity |]. left. simpl. lia.
  - apply Hshape.
Defined.




(** X3.  The saturations of a cell and the calls of its pass depend only
    on the cell and on the pressures at its own local index: two
    returning runs for the same region that have the same cell at two
    places, with the same pressures of the active phases there, give it
    the same saturations through the same calls. *)
Theorem phaseSaturations_cell_local {helpers : EquilibrationHelpers}
    (reg : EquilReg) (props : BlackoilPropertiesInterface)
    (pp pp' : PPress) (cells cells' : list Z) (tr tr' : list Call)
    (sat sat' : PPress) (li li' : nat) (c : Z) :
  distinct_positions (pu_ reg) ->
  phaseSaturations reg props pp cells = (tr, inr sat) ->
  phaseSaturations reg props pp' cells' = (tr', inr sat') ->
  cells !! li = Some c -> cells' !! li' = Some c ->
  (forall ph, phase_used (pu_ reg) ph = true ->
     entry pp (phase_pos (pu_ reg) ph) li
     = entry pp' (phase_pos (pu_ reg) ph) li') ->
  (forall ph, phaseSat (pu_ reg) sat ph li = phaseSat (pu_ reg) sat' ph li') /\
  cell_trace tr li = cell_trace tr' li'.
Proof.
  intros Hdist Hrun Hrun' Hc Hc' Hsame.
  destruct (phaseSaturations_inr _ _ _ _ _ _ Hrun) as (_ & _ & Hoil & _).
  destruct (phaseSaturations_cell _ _ _ _ _ _ _ _ Hdist Hrun Hc)
    as (sw0 & sg0 & sw & sg & trc & Hv & Htrc & Hsw & Hso & Hsg).
  destruct (phaseSaturations_cell _ _ _ _ _ _ _ _ Hdist Hrun' Hc')
    as (sw0' & sg0' & sw' & sg' & trc' & Hv' & Htrc' & Hsw' & Hso' & Hsg').
  destruct (cell_values_fun _ _ _ _ _ _ _ _ _ _ _ _ _ _ _ _ _
              Hsame Hoil Hv Hv') as (_ & _ & -> & -> & ->).
  split; [| congruence]. intros []; congruence.
Qed.

Lemma phaseSaturations_cell_local_witness :
  (forall ph, phaseSat pu3 demoSat3 ph 1 = phaseSat pu3 demoSatSingle ph 0) /\
  cell_trace demoTrace3 1 = cell_trace (trace demoRunSingle) 0.
Proof.
  refine (phaseSaturations_cell_local (helpers := linHelpers)
            (demoReg pu3) (linProps pu3) demoPress demoPressSingle
            demoCells [1] demoTrace3 (trace demoRunSingle)
            demoSat3 demoSatSingle 1 0 1 pu3_distinct _ _ _ _ _).
  - vm_compute. reflexivity.
  - vm_compute. reflexivity.
  - reflexivity.
  - reflexivity.
  - intros [] _; reflexivity.
Defined.

(** X4.  A run does not return when an inverter raises for one of its
    cells: when water is active and [satFromPc] fails for the water-oil
    target of a cell, or gas is active and it fails for the gas-oil
    target, [phaseSaturations] yields no table at all. *)
Theorem phaseSaturations_inverter_failure {helpers : EquilibrationHelpers}
    (reg : EquilReg) (props : BlackoilPropertiesInterface)
    (pp : PPress) (cells : list Z) (li : nat) (c : Z) (po pw pg : Q) :
  let oilpos := phase_pos (pu_ reg) Liquid in
  let waterpos := phase_pos (pu_ reg) Aqua in
  let gaspos := phase_pos (pu_ reg) Vapour in
  distinct_positions (pu_ reg) ->
  cells !! li = Some c ->
  entry pp oilpos li = Some po ->
  (phase_used (pu_ reg) Aqua = true /\ entry pp waterpos li = Some pw /\
   satFromPc props waterpos c (po - pw)%Q false = None) \/
  (phase_used (pu_ reg) Vapour = true /\ entry pp gaspos li = Some pg /\
   satFromPc props gaspos c (pg - po)%Q true = None) ->
  ~ returns (phaseSaturations reg props pp cells).
Proof.
  intros oilpos waterpos gaspos Hdist Hc Hpo Hfail [sat Hsat].
  destruct (phaseSaturations reg props pp cells) as [tr r] eqn:Hrun.
  simpl in Hsat. subst r.
  destruct (phaseSaturations_cell _ _ _ _ _ _ _ _ Hdist Hrun Hc)
    as (sw0 & sg0 & sw & sg & trc & Hv & _).
  destruct Hv as (tr1 & tr2 & tr3 & _ & Hwv & Hgv & _).
  destruct Hfail as [(Hwat & Hpw & Hnone) | (Hgas & Hpg & Hnone)].
  - rewrite Hwat in Hwv. destruct Hwv as (po' & pw' & Hpo' & Hpw' & Hinv & _).
    fold oilpos in Hpo'. fold waterpos in Hpw', Hinv. congruence.
  - rewrite Hgas in Hgv. destruct Hgv as (pg' & po' & Hpg' & Hpo' & Hinv & _).
    fold oilpos in Hpo'. fold gaspos in Hpg', Hinv. congruence.
Qed.

Lemma phaseSaturations_inverter_failure_witness :
  ~ returns (phaseSaturations (helpers := failingHelpers)
               (demoReg pu3) (linProps pu3) demoPress demoCells).
Proof.
  refine (phaseSaturations_inverter_failure (helpers := failingHelpers)
            (demoReg pu3) (linProps pu3) demoPress demoCells
            0 0 (1 # 2) 0 (4 # 5) pu3_distinct _ _ _).
  - reflexivity.
  - reflexivity.
  - left. repeat split; reflexivity.
Defined.

(** X5.  The inversion of the sum of the two capillary pressures is
    called only in a region where water and gas are both active, and only
    for a cell whose two separate inversions gave saturations whose sum
    exceeds one: a returning run for a region with at most one of them
    never calls [satFromSumOfPcs]. *)
Theorem phaseSaturations_sum_inversion_only_three_phase
    {helpers : EquilibrationHelpers}
    (reg : EquilReg) (props : BlackoilPropertiesInterface)
    (pp : PPress) (cells : list Z) (tr : list Call) (sat : PPress)
    (call : Call) :
  distinct_positions (pu_ reg) ->
  phaseSaturations reg props pp cells = (tr, inr sat) ->
  call ∈ tr -> is_sum_inversion call = true ->
  phase_used (pu_ reg) Aqua = true /\ phase_used (pu_ reg) Vapour = true /\
  exists li c sw0 sg0 po pw pg,
    cells !! li = Some c /\
    entry pp (phase_pos (pu_ reg) Liquid) li = Some po /\
    entry pp (phase_pos (pu_ reg) Aqua) li = Some pw /\
    entry pp (phase_pos (pu_ reg) Vapour) li = Some pg /\
    satFromPc props (phase_pos (pu_ reg) Aqua) c (po - pw)%Q false
    = Some sw0 /\
    satFromPc props (phase_pos (pu_ reg) Vapour) c (pg - po)%Q true
    = Some sg0 /\
    (1 < sw0 + sg0)%Q /\
    call = call_satFromSumOfPcs (phase_pos (pu_ reg) Aqua)
             (phase_pos (pu_ reg) Vapour) c (pg - pw)%Q.
Proof.
  intros Hdist Hrun Hin Hsum.
  destruct (phaseSaturations_inr _ _ _ _ _ _ Hrun) as (_ & _ & Hoil & Hloop).
  apply cellLoop_inv in Hloop as (_ & _ & _ & _ & Hcalls & _);
    [| done | done].
  destruct (Hcalls call Hin)
    as (li & c & sw0 & sg0 & sw & sg & trc & Hc & Hv & Hintrc).
  simpl in Hv.
  pose proof (proj1 (cell_values_sum_call _ _ _ _ _ _ _ _ _ _ Hv)
                (ex_intro _ call (conj Hintrc Hsum))) as Hguard.
  apply andb_true_iff in Hguard as [[Hgas Hwat]%andb_true_iff Hgt].
  destruct Hv as (tr1 & tr2 & tr3 & -> & Hwv & Hgv & Hov).
  rewrite Hwat in Hwv. rewrite Hgas in Hgv. rewrite Hwat, Hgas, Hgt in Hov.
  simpl in Hov.
  destruct Hwv as (po & pw & Hpo & Hpw & Hinvw & ->).
  destruct Hgv as (pg & po' & Hpg & Hpo' & Hinvg & ->).
  destruct Hov as (pg' & pw' & Hpg' & Hpw' & Hinvs & _ & ->).
  assert (po' = po) as -> by congruence.
  assert (pg' = pg) as -> by congruence.
  assert (pw' = pw) as -> by congruence.
  split; [done |]. split; [done |].
  exists li, c, sw0, sg0, po, pw, pg. do 6 (split; [done |]).
  split; [apply Qgt_bool_true in Hgt; lra |].
  simpl in Hintrc.
  repeat (apply elem_of_cons in Hintrc as [-> | Hintrc]; [try done |]).
  by apply elem_of_nil in Hintrc.
Qed.

Lemma phaseSaturations_sum_inversion_only_three_phase_witness :
  phase_used pu3 Aqua = true /\ phase_used pu3 Vapour = true /\
  exists li c sw0 sg0 po pw pg,
    demoCells !! li = Some c /\
    entry demoPress 1 li = Some po /\
    entry demoPress 0 li = Some pw /\
    entry demoPress 2 li = Some pg /\
    satFromPc (EquilibrationHelpers := linHelpers)
      (linProps pu3) 0 c (po - pw)%Q false = Some sw0 /\
    satFromPc (EquilibrationHelpers := linHelpers)
      (linProps pu3) 2 c (pg - po)%Q true = Some sg0 /\
    (1 < sw0 + sg0)%Q /\
    call_satFromSumOfPcs 0 2 1 ((3 # 2) - 0)%Q
    = call_satFromSumOfPcs 0 2 c (pg - pw)%Q.
Proof.
  refine (phaseSaturations_sum_inversion_only_three_phase
            (helpers := linHelpers) (demoReg pu3) (linProps pu3)
            demoPress demoCells demoTrace3 demoSat3
            (call_satFromSumOfPcs 0 2 1 ((3 # 2) - 0)%Q)
            pu3_distinct _ _ _).
  - vm_compute. reflexivity.
  - rewrite demoRun3_calls. repeat constructor.
  - reflexivity.
Defined.

(* ===================================================================== *)
(** * Further properties of the driver                                    *)
(* ===================================================================== *)


Lemma foldM_invariant {A S} (P : S -> Prop) (f : S -> A -> M S)
    (l : list A) :
  (forall st a tr st', a ∈ l -> f st a = (tr, inr st') -> P st -> P st') ->
  forall st tr st', P st -> foldM f l st = (tr, inr st') -> P st'.
Proof.
  induction l as [| a l IH]; intros Hstep st tr st' HP; simpl.
  { by intros [= <- <-]. }
  intros (tr1 & st1 & tr2 & Hf & Hrest & ->)%bind_inr.
  eapply IH; [| | exact Hrest].
  - intros st0 b tr0 st0' Hb. apply Hstep. by constructor.
  - eapply Hstep; [constructor | exact Hf | exact HP].
Qed.

Lemma equilnum_inr deck G tr eqlnum :
  equilnum deck G = (tr, inr eqlnum) -> tr = [].
Proof.
  unfold equilnum, vec_make. destruct (hasField deck "EQLNUM").
  - by intros [= <- _].
  - destruct (number_of_cells G <? 0); [discriminate |]. by intros [= <- _].
Qed.

Lemma vec_make_inr {A} n (x : A) tr v :
  vec_make n x = (tr, inr v) ->
  tr = [] /\ 0 <= n /\ v = replicate (Z.to_nat n) x.
Proof.
  unfold vec_make. destruct (Z.ltb_spec n 0); [discriminate |].
  by intros [= <- <-].
Qed.

(** The steps of the constructor, when it returns. *)
Lemma constructor_inv
    {helpers : EquilibrationHelpers} {collab : EquilCollaborators}
    props deck G grav tr pp_ sat_ :
  PhasePressureSaturationComputer props deck G grav
  = (tr, inr (pp_, sat_)) ->
  0 <= number_of_cells G /\ 0 <= numPhases props /\
  exists rec eqlnum tr1 tr2 st1,
    let zeros :=
      replicate (Z.to_nat (numPhases props))
                (replicate (Z.to_nat (number_of_cells G)) 0%Q) in
    getEquil deck = ([], inr rec) /\
    equilnum deck G = ([], inr eqlnum) /\
    calcPressII (mkRegionMapping eqlnum) rec props G grav (zeros, zeros)
    = (tr1, inr st1) /\
    calcSat (mkRegionMapping eqlnum) rec props G grav st1
    = (tr2, inr (pp_, sat_)).
Proof.
  unfold PhasePressureSaturationComputer. intros Hrun.
  apply bind_inr in Hrun as (t1 & row & t2 & Hrow & Hrun & ->).
  apply bind_inr in Hrun as (t3 & pp0 & t4 & Hpp0 & Hrun & ->).
  apply bind_inr in Hrun as (t5 & sat0 & t6 & Hsat0 & Hrun & ->).
  apply bind_inr in Hrun as (t7 & rec & t8 & Hrec & Hrun & ->).
  apply bind_inr in Hrun as (t9 & eqlnum & t10 & Heql & Hrun & ->).
  apply bind_inr in Hrun as (tr1 & st1 & tr2 & HpressII & Hsat & ->).
  apply vec_make_inr in Hrow as (-> & Hn & ->).
  apply vec_make_inr in Hpp0 as (-> & Hnp & ->).
  apply vec_make_inr in Hsat0 as (-> & _ & ->).
  pose proof (equilnum_inr _ _ _ _ Heql) as ->.
  assert (t7 = []) as ->.
  { revert Hrec. unfold getEquil. destruct (hasField deck "EQUIL");
      [by intros [= <- _] | discriminate]. }
  split; [done |]. split; [done |].
  by exists rec, eqlnum, tr1, tr2, st1.
Qed.





Lemma scatter_shape np cells res dst tr dst' rows cols :
  scatter np cells res dst = (tr, inr dst') ->
  has_shape dst rows cols -> has_shape dst' rows cols.
Proof.
  unfold scatter. intros Hfold [Hlen Hrows].
  apply scatter_rows in Hfold as (_ & Hlen' & Hwritten & Hframe);
    [| apply NoDup_seqZ].
  split; [lia |].
  apply Forall_lookup. intros q row' Hq.
  destruct (decide (Z.of_nat q < np)) as [Hlt | Hge].
  - destruct (Hwritten (Z.of_nat q)) as (_ & d & s & d' & Hd & _ & Hsc & Hd').
    { apply elem_of_seqZ. lia. }
    rewrite Nat2Z.id in Hd, Hd'.
    apply scatterCells_inv in Hsc as (_ & Hl & _).
    assert (row' = d') as -> by congruence. rewrite Hl.
    by apply (Forall_lookup_1 _ _ _ _ Hrows Hd).
  - rewrite Hframe in Hq.
    + by apply (Forall_lookup_1 _ _ _ _ Hrows Hq).
    + intros p Hp%elem_of_seqZ. lia.
Qed.

Lemma replicate_shape rows cols (x : Q) :
  0 <= rows -> 0 <= cols ->
  has_shape (replicate (Z.to_nat rows) (replicate (Z.to_nat cols) x))
            rows cols.
Proof.
  intros Hr Hc. split; [rewrite length_replicate; lia |].
  apply Forall_forall. intros row [-> _]%elem_of_replicate.
  rewrite length_replicate. lia.
Qed.

(** X8.  After the constructor, [press()] and [saturation()] each have
    one row per phase of the property object and one entry per cell of
    the grid in every row, whatever the regions are. *)
Theorem constructor_field_shape
    {helpers : EquilibrationHelpers} {collab : EquilCollaborators}
    (props : BlackoilPropertiesInterface) (deck : EclipseGridParser)
    (G : UnstructuredGrid) (grav : Q)
    (tr : list Call) (pp_ sat_ : PPress) :
  PhasePressureSaturationComputer props deck G grav
  = (tr, inr (pp_, sat_)) ->
  has_shape pp_ (numPhases props) (number_of_cells G) /\
  has_shape sat_ (numPhases props) (number_of_cells G).
Proof.
  intros (Hn & Hnp & rec & eqlnum & tr1 & tr2 & st1 & _ & _ & Hpress & Hsat)
         %constructor_inv.
  set (P := fun st : PPress * PPress =>
              has_shape (fst st) (numPhases props) (number_of_cells G) /\
              has_shape (snd st) (numPhases props) (number_of_cells G)).
  change (P (pp_, sat_)).
  eapply (foldM_invariant P); [| | exact Hsat].
  - intros st r tr' st' _ Hstep [Hp Hs].
    apply calcSat_region_inv in Hstep
      as (eqreg & press & sats & tr3 & tr4 & _ & _ & _ & Hsc1 & Hsc2).
    split; [by eapply scatter_shape | by eapply scatter_shape].
  - eapply (foldM_invariant P); [| | exact Hpress].
    + intros st r tr' st' _ Hstep [Hp Hs].
      apply calcPressII_region_inv in Hstep
        as (press & tr0 & _ & Hsc & Hsnd & _).
      split; [by eapply scatter_shape | by rewrite Hsnd].
    + split; by apply replicate_shape.
Qed.

Lemma constructor_field_shape_witness :
  has_shape demoPressField 3 3 /\ has_shape demoSatField 3 3.
Proof.
  refine (constructor_field_shape (helpers := linHelpers)
            (collab := demoCollab) (linProps pu3) demoDeck demoGrid
            (1 # 10) (trace demoComputer) demoPressField demoSatField _).
  vm_compute. reflexivity.
Defined.

(** X9.  A cell of the grid that is in the range of no region keeps the
    initial value zero in every row of [press()] and of [saturation()]:
    the constructor writes the cells of the ranges and no others. *)
Theorem constructor_leaves_unmapped_cells_zero
    {helpers : EquilibrationHelpers} {collab : EquilCollaborators}
    (props : BlackoilPropertiesInterface) (deck : EclipseGridParser)
    (G : UnstructuredGrid) (grav : Q) (eqlnum : list Z)
    (tr : list Call) (pp_ sat_ : PPress) (p k : Z) :
  let rm := mkRegionMapping eqlnum in
  equilnum deck G = ([], inr eqlnum) ->
  PhasePressureSaturationComputer props deck G grav
  = (tr, inr (pp_, sat_)) ->
  0 <= p < numPhases props -> 0 <= k < number_of_cells G ->
  (forall r c, 0 <= r < numRegions rm -> c ∈ cells rm r -> c <> k) ->
  entry pp_ p (Z.to_nat k) = Some 0%Q /\
  entry sat_ p (Z.to_nat k) = Some 0%Q.
Proof.
  intros rm Heql Hrun Hp Hk Hunmapped.
  apply constructor_inv in Hrun
    as (_ & _ & rec & eqlnum' & tr1 & tr2 & st1 & _ & Heql' & Hpress & Hsat).
  assert (eqlnum' = eqlnum) as -> by congruence. fold rm in Hpress, Hsat.
  assert (forall cs res dst tr' dst',
            (exists r, 0 <= r < numRegions rm /\ cs = cells rm r) ->
            scatter (numPhases props) cs res dst = (tr', inr dst') ->
            entry dst' p (Z.to_nat k) = entry dst p (Z.to_nat k)) as Hkeep.
  { intros cs res dst tr' dst' (r & Hr & ->) Hsc.
    apply scatter_inv in Hsc as (_ & Hrange & _ & Hframe).
    apply Hframe. intros c Hc Heq.
    destruct (list_elem_of_lookup_1 _ _ Hc) as [i Hi].
    destruct (Hrange p i c Hp Hi) as [Hc0 _].
    apply (Hunmapped r c Hr Hc). lia. }
  set (P := fun st : PPress * PPress =>
              entry (fst st) p (Z.to_nat k) = Some 0%Q /\
              entry (snd st) p (Z.to_nat k) = Some 0%Q).
  change (P (pp_, sat_)).
  eapply (foldM_invariant P); [| | exact Hsat].
  - intros st r tr' st' Hr%elem_of_seqZ Hstep [Hpz Hsz].
    apply calcSat_region_inv in Hstep
      as (eqreg & press & sats & tr3 & tr4 & _ & _ & _ & Hsc1 & Hsc2).
    assert (exists r', 0 <= r' < numRegions rm /\ cells rm r = cells rm r')
      as Hreg by (exists r; split; [lia | done]).
    split; [by rewrite (Hkeep _ _ _ _ _ Hreg Hsc1)
           | by rewrite (Hkeep _ _ _ _ _ Hreg Hsc2)].
  - eapply (foldM_invariant P); [| | exact Hpress].
    + intros st r tr' st' Hr%elem_of_seqZ Hstep [Hpz Hsz].
      apply calcPressII_region_inv in Hstep
        as (press & tr0 & _ & Hsc & Hsnd & _).
      assert (exists r', 0 <= r' < numRegions rm /\ cells rm r = cells rm r')
        as Hreg by (exists r; split; [lia | done]).
      split; [| by rewrite Hsnd].
      by rewrite (Hkeep _ _ _ _ _ Hreg Hsc).
    + assert (entry (replicate (Z.to_nat (numPhases props))
                       (replicate (Z.to_nat (number_of_cells G)) 0%Q))
                    p (Z.to_nat k) = Some 0%Q) as Hzero.
      { unfold entry. destruct (Z.ltb_spec p 0); [lia |].
        rewrite lookup_replicate_2 by lia.
        apply lookup_replicate_2. lia. }
      by split.
Qed.

Lemma constructor_leaves_unmapped_cells_zero_witness :
  entry (fst (match outcome demoComputer4 with
              | inr st => st | inl _ => ([], []) end)) 1 3 = Some 0%Q /\
  entry (snd (match outcome demoComputer4 with
              | inr st => st | inl _ => ([], []) end)) 1 3 = Some 0%Q.
Proof.
  refine (constructor_leaves_unmapped_cells_zero (helpers := linHelpers)
            (collab := demoCollab) (linProps pu3) demoDeck demoGrid4
            (1 # 10) [0; 1; 0] (trace demoComputer4) _ _ 1 3 _ _ _ _ _).
  - reflexivity.
  - vm_compute. reflexivity.
  - simpl. lia.
  - simpl. lia.
  - intros r c Hr. assert (r = 0 \/ r = 1) as [-> | ->]
      by (revert Hr; vm_compute numRegions; lia);
      vm_compute cells; intros Hc;
      repeat (apply elem_of_cons in Hc as [-> | Hc]; [lia |]);
      by apply elem_of_nil in Hc.
Defined.

(* ===================================================================== *)
(** * Properties of the face computations of [calculateVelocity]          *)
(* ===================================================================== *)








(** X11.  The upwinded value of a face lies between the values of the
    two cells: it is the value of the one cell for a positive potential,
    of the other for a negative one, and their mean for a zero one. *)
Theorem upwind_between (potential vI vJ : Q) :
  ((0 < potential)%Q -> upwind potential vI vJ = vI) /\
  ((potential < 0)%Q -> upwind potential vI vJ = vJ) /\
  ((potential == 0)%Q ->
   upwind potential vI vJ = ((1 # 2) * (vI + vJ))%Q) /\
  ((vI <= vJ)%Q ->
   (vI <= upwind potential vI vJ /\ upwind potential vI vJ <= vJ)%Q) /\
  ((vJ <= vI)%Q ->
   (vJ <= upwind potential vI vJ /\ upwind potential vI vJ <= vI)%Q).
Proof.
  unfold upwind.
  destruct (Qeq_bool potential 0) eqn:Hz;
    [apply Qeq_bool_iff in Hz | apply Qeq_bool_neq in Hz];
    destruct (Qgt_bool potential 0) eqn:Hg;
    [apply Qgt_bool_true in Hg | apply Qgt_bool_false in Hg
    | apply Qgt_bool_true in Hg | apply Qgt_bool_false in Hg];
    repeat split; intros; try lra; try done.
Qed.

Lemma upwind_between_witness :
  upwind 5 3 2 = 3%Q /\ upwind (-5) 3 2 = 2%Q /\
  upwind 0 3 2 = ((1 # 2) * (3 + 2))%Q /\
  (2 <= upwind 0 3 2 /\ upwind 0 3 2 <= 3)%Q.
Proof.
  destruct (upwind_between 5 3 2) as (Hpos & _).
  destruct (upwind_between (-5) 3 2) as (_ & Hneg & _).
  destruct (upwind_between 0 3 2) as (_ & _ & Hzero & _ & Hle).
  split; [apply Hpos; lra |]. split; [apply Hneg; lra |].
  split; [apply Hzero; lra |]. apply Hle. lra.
Defined.


(** ** Vectors of rationals *)

Lemma veq_refl v : veq v v.
Proof. unfold veq. induction v; constructor; [reflexivity | done]. Qed.

Lemma veq_sym u v : veq u v -> veq v u.
Proof.
  unfold veq. induction 1; constructor; [by symmetry | done].
Qed.

Lemma veq_trans u v w : veq u v -> veq v w -> veq u w.
Proof.
  unfold veq. intros Huv. revert w.
  induction Huv as [| a b u v Hab Huv IH]; intros w Hvw;
    inversion Hvw; subst; constructor; [by etransitivity | by apply IH].
Qed.




Lemma veq_vneg_refl u : veq (vneg u) (vneg u).
Proof. apply veq_refl. Qed.








(** ** The potentials and the velocities of an interior face *)

Section InteriorFace.
Context {indices : TwoPCommon}.
Hypothesis Hwf : pressure_indices_wf.

Lemma pn_is_not_pw : (pn =? pw) = false.
Proof. apply Z.eqb_neq. destruct Hwf as (? & ? & ?). congruence. Qed.

Lemma pw_is_not_pn : (pw =? pn) = false.
Proof. apply Z.eqb_neq. by destruct Hwf as (? & ? & ?). Qed.

Lemma pw_is_not_pglobal : (pw =? pglobal) = false.
Proof. apply Z.eqb_neq. by destruct Hwf as (? & ? & ?). Qed.

Lemma pn_is_not_pglobal : (pn =? pglobal) = false.
Proof. apply Z.eqb_neq. by destruct Hwf as (? & ? & ?). Qed.

Lemma pglobal_is_not_pw : (pglobal =? pw) = false.
Proof. apply Z.eqb_neq. destruct Hwf as (? & ? & ?). congruence. Qed.

Lemma pglobal_is_not_pn : (pglobal =? pn) = false.
Proof. apply Z.eqb_neq. destruct Hwf as (? & ? & ?). congruence. Qed.

Lemma potentials_pw g u d I J sW sNW :
  potentials pw g u d I J sW sNW =
  (((cellPress I - cellPress J) / d
    + upwind sW (densityW_ I) (densityW_ J) * vdot u g)%Q,
   ((cellPress I - cellPress J + cellPc I - cellPc J) / d
    + upwind sNW (densityNW_ I) (densityNW_ J) * vdot u g)%Q).
Proof.
  unfold potentials.
  by rewrite Z.eqb_refl, pw_is_not_pn, pw_is_not_pglobal.
Qed.

Lemma potentials_pn g u d I J sW sNW :
  potentials pn g u d I J sW sNW =
  (((cellPress I - cellPress J - cellPc I + cellPc J) / d
    + upwind sW (densityW_ I) (densityW_ J) * vdot u g)%Q,
   ((cellPress I - cellPress J) / d
    + upwind sNW (densityNW_ I) (densityNW_ J) * vdot u g)%Q).
Proof.
  unfold potentials.
  by rewrite Z.eqb_refl, pn_is_not_pw, pn_is_not_pglobal.
Qed.

Lemma potentials_pglobal g u d I J sW sNW :
  potentials pglobal g u d I J sW sNW =
  (((cellPress I - cellPress J
     - (1 # 2) * (fractionalNW_ I + fractionalNW_ J)
       * (cellPc I - cellPc J)) / d
    + upwind sW (densityW_ I) (densityW_ J) * vdot u g)%Q,
   ((cellPress I - cellPress J
     + (1 # 2) * (fractionalW_ I + fractionalW_ J)
       * (cellPc I - cellPc J)) / d
    + upwind sNW (densityNW_ I) (densityNW_ J) * vdot u g)%Q).
Proof.
  unfold potentials.
  by rewrite Z.eqb_refl, pglobal_is_not_pw, pglobal_is_not_pn.
Qed.
End InteriorFace.


(** X12.  The potentials of the two phases at an interior face differ by
    the capillary pressure difference over the distance and by the
    gravity part of the density difference, under each of the three
    pressure types; under the global pressure this needs the fractional
    flows of each cell to sum to one. *)
Theorem potentials_difference {indices : TwoPCommon} (pressureType : Z)
    (gravity unitDistVec : list Q) (dist : Q) (I J : CellData)
    (storedW storedNW : Q) :
  pressure_indices_wf ->
  pressureType = pw \/ pressureType = pn \/
  (pressureType = pglobal /\
   (fractionalW_ I + fractionalNW_ I == 1)%Q /\
   (fractionalW_ J + fractionalNW_ J == 1)%Q) ->
  let r := potentials pressureType gravity unitDistVec dist I J
             storedW storedNW in
  (r.2 - r.1 ==
   (cellPc I - cellPc J) / dist
   + (upwind storedNW (densityNW_ I) (densityNW_ J)
      - upwind storedW (densityW_ I) (densityW_ J))
     * vdot unitDistVec gravity)%Q.
Proof.
  intros Hwf [-> | [-> | (-> & HI & HJ)]]; simpl.
  - rewrite potentials_pw by done. simpl. unfold Qdiv. ring.
  - rewrite potentials_pn by done. simpl. unfold Qdiv. ring.
  - rewrite potentials_pglobal by done. simpl.
    assert (fractionalNW_ I == 1 - fractionalW_ I)%Q as -> by lra.
    assert (fractionalNW_ J == 1 - fractionalW_ J)%Q as -> by lra.
    unfold Qdiv. ring.
Qed.

Lemma potentials_difference_witness :
  ((potentials (indices := dumuxIndices) 2 demoGravity demoUnitDist 1
      cellI cellJpc 0 0).2
   - (potentials (indices := dumuxIndices) 2 demoGravity demoUnitDist 1
        cellI cellJpc 0 0).1 ==
   (cellPc cellI - cellPc cellJpc) / 1
   + (upwind 0 (densityNW_ cellI) (densityNW_ cellJpc)
      - upwind 0 (densityW_ cellI) (densityW_ cellJpc))
     * vdot demoUnitDist demoGravity)%Q.
Proof.
  apply (potentials_difference (indices := dumuxIndices) 2).
  - repeat split; discriminate.
  - right; right. repeat split; reflexivity.
Defined.



(** With different capillary pressures in the two cells the two
    formulations store different velocities: the capillary part of the
    velocity uses the mean mobility, the pressure part the upwinded
    one. *)
Example interiorFace_pw_pn_differ :
  Qred <$> velocity
    (interiorFace (indices := dumuxIndices) (tagOf false 0) 0 demoGravity
       demoUnitDist demoPermeability 1 cellI cellJpc 0 0 noVelocity).2
  = [3; 0]%Q /\
  Qred <$> velocity
    (interiorFace (indices := dumuxIndices) (tagOf false 0) 1 demoGravity
       demoUnitDist demoPermeability 1 (nonwettingPressure cellI)
       (nonwettingPressure cellJpc) 0 0 noVelocity).2
  = [13 # 4; 0]%Q.
Proof. split; vm_compute; reflexivity. Qed.




Lemma storeVelocities_vt {indices : TwoPCommon} tag pt vW vNW fv :
  velocityType_ tag = vt -> vt <> vw -> vt <> vn ->
  pt = pw \/ pt = pn ->
  storeVelocities tag pt vW vNW fv =
  {| velocity := vadd vW vNW; velocitySecondPhase := velocitySecondPhase fv |}.
Proof.
  intros Hvt Hw Hn Hpt. unfold storeVelocities. rewrite Hvt.
  rewrite (proj2 (Z.eqb_neq vt vw) Hw), (proj2 (Z.eqb_neq vt vn) Hn).
  rewrite Z.eqb_refl.
  by destruct Hpt as [-> | ->]; rewrite Z.eqb_refl, ?orb_true_r.
Qed.



(** X15.  Under the global pressure a formulation with a phase velocity
    stores the bare vectorised permeability as both velocities of an
    interior face: neither pressures nor mobilities nor gravity enter. *)
Theorem interiorFace_pglobal_phase_velocity {indices : TwoPCommon}
    (tag : TypeTag) (gravity unitDistVec permeability : list Q) (dist : Q)
    (I J : CellData) (storedW storedNW : Q) (fv : FaceVelocity) :
  pressure_indices_wf -> indices_wf ->
  velocityType_ tag = vw \/ velocityType_ tag = vn ->
  (interiorFace tag pglobal gravity unitDistVec permeability dist
     I J storedW storedNW fv).2 =
  {| velocity := permeability; velocitySecondPhase := permeability |}.
Proof.
  intros Hwf (Hwn & Hwt & Hnt & _) Hv. unfold interiorFace.
  rewrite potentials_pglobal by done. simpl.
  unfold interiorVelocities.
  rewrite !Z.eqb_refl, pglobal_is_not_pw, pglobal_is_not_pn by done.
  simpl. unfold storeVelocities.
  destruct Hv as [-> | ->]; rewrite !Z.eqb_refl.
  - rewrite (proj2 (Z.eqb_neq vw vn) Hwn), (proj2 (Z.eqb_neq vw vt) Hwt).
    done.
  - by rewrite (proj2 (Z.eqb_neq vn vt) Hnt).
Qed.

Lemma interiorFace_pglobal_phase_velocity_witness :
  (interiorFace (indices := dumuxIndices) (tagOf false 0) 2 demoGravity
     demoUnitDist demoPermeability 1 cellI cellJpc 0 0 noVelocity).2 =
  {| velocity := demoPermeability; velocitySecondPhase := demoPermeability |}.
Proof.
  apply (interiorFace_pglobal_phase_velocity (indices := dumuxIndices)).
  - repeat split; discriminate.
  - repeat split; discriminate.
  - by left.
Defined.



(** The face between [cellI] and [cellJpc]: the velocity of the wetting
    phase from the first cell, and the same vector from the second. *)
Example interiorFace_reversed_values :
  Qred <$> velocity
    (interiorFace (indices := dumuxIndices) (tagOf false 0) 0 demoGravity
       demoUnitDist (facePermeability demoK demoKJ demoUnitDist)
       1 cellI cellJpc 0 0 noVelocity).2 = [2; 0]%Q /\
  Qred <$> velocity
    (interiorFace (indices := dumuxIndices) (tagOf false 0) 0 demoGravity
       (vneg demoUnitDist) (facePermeability demoKJ demoK (vneg demoUnitDist))
       1 cellJpc cellI (- 0) (- 0) noVelocity).2 = [2; 0]%Q.
Proof. split; vm_compute; reflexivity. Qed.

(** X17.  At a Dirichlet pressure boundary the two phase saturations
    come from the boundary saturation and sum to one, under either
    saturation type; any other saturation type is a [RangeError]. *)
Theorem boundarySaturations_sum {satIndices : TwoPSaturationIndices}
    (saturationType : Z) (satBound : Q) :
  (saturationType = Sw \/ saturationType = Sn ->
   exists satW satNW,
     boundarySaturations saturationType satBound = inr (satW, satNW) /\
     (satW + satNW == 1)%Q /\
     (satW = satBound \/ satNW = satBound)) /\
  (saturationType <> Sw -> saturationType <> Sn ->
   boundarySaturations saturationType satBound =
   inl (RangeError "saturation type not implemented")).
Proof.
  unfold boundarySaturations. split.
  - intros Hs.
    destruct (saturationType =? Sw) eqn:Hw.
    { exists satBound, (1 - satBound)%Q.
      split; [done |]. split; [ring | by left]. }
    destruct Hs as [-> | ->]; [by rewrite Z.eqb_refl in Hw |].
    rewrite Z.eqb_refl. exists (1 - satBound)%Q, satBound.
    split; [done |]. split; [ring | by right].
  - intros Hw Hn.
    by rewrite (proj2 (Z.eqb_neq _ _) Hw), (proj2 (Z.eqb_neq _ _) Hn).
Qed.

Lemma boundarySaturations_sum_witness :
  (exists satW satNW,
     boundarySaturations (satIndices := dumuxSatIndices) 1 (1 # 4)
       = inr (satW, satNW) /\
     (satW + satNW == 1)%Q /\ (satW = (1 # 4)%Q \/ satNW = (1 # 4)%Q)) /\
  boundarySaturations (satIndices := dumuxSatIndices) 7 (1 # 4) =
  inl (RangeError "saturation type not implemented").
Proof.
  split.
  - apply (proj1 (boundarySaturations_sum (satIndices := dumuxSatIndices)
                    1 (1 # 4))).
    by right.
  - apply (proj2 (boundarySaturations_sum (satIndices := dumuxSatIndices)
                    7 (1 # 4))); discriminate.
Defined.

(** X18.  At a Dirichlet pressure boundary the two phase pressures
    differ by the capillary pressure under the pressure of either
    phase, the boundary pressure being the pressure of that phase; under
    any other pressure type, the global pressure included, both phase
    pressures are left zero. *)
Theorem boundaryPressures_difference {indices : TwoPCommon}
    (pressureType : Z) (pressBound pcBound : Q) :
  (pressureType = pw ->
   (boundaryPressures pressureType pressBound pcBound).1 = pressBound /\
   ((boundaryPressures pressureType pressBound pcBound).2
    - (boundaryPressures pressureType pressBound pcBound).1 == pcBound)%Q) /\
  (pressureType <> pw -> pressureType = pn ->
   (boundaryPressures pressureType pressBound pcBound).2 = pressBound /\
   ((boundaryPressures pressureType pressBound pcBound).2
    - (boundaryPressures pressureType pressBound pcBound).1 == pcBound)%Q) /\
  (pressureType <> pw -> pressureType <> pn ->
   boundaryPressures pressureType pressBound pcBound = (0%Q, 0%Q)).
Proof.
  unfold boundaryPressures. split; [| split].
  - intros ->. rewrite Z.eqb_refl. simpl. split; [done | ring].
  - intros Hw ->. rewrite (proj2 (Z.eqb_neq _ _) Hw), Z.eqb_refl. simpl.
    split; [done | ring].
  - intros Hw Hn.
    by rewrite (proj2 (Z.eqb_neq _ _) Hw), (proj2 (Z.eqb_neq _ _) Hn).
Qed.

Lemma boundaryPressures_difference_witness :
  ((boundaryPressures (indices := dumuxIndices) 0 10 2).2
   - (boundaryPressures (indices := dumuxIndices) 0 10 2).1 == 2)%Q /\
  ((boundaryPressures (indices := dumuxIndices) 1 10 2).2
   - (boundaryPressures (indices := dumuxIndices) 1 10 2).1 == 2)%Q /\
  boundaryPressures (indices := dumuxIndices) 2 10 2 = (0%Q, 0%Q).
Proof.
  split; [| split].
  - apply (proj1 (boundaryPressures_difference (indices := dumuxIndices)
                    0 10 2)).
    reflexivity.
  - apply (proj1 (proj2 (boundaryPressures_difference
                           (indices := dumuxIndices) 1 10 2)));
      [discriminate | reflexivity].
  - apply (proj2 (proj2 (boundaryPressures_difference
                           (indices := dumuxIndices) 2 10 2)));
      discriminate.
Defined.

(** ** A Dirichlet pressure boundary face *)




(** X20.  With compressible fluids the densities at a Dirichlet pressure
    boundary are evaluated at the phase pressures: under the pressure of
    the wetting phase at the boundary pressure and at the boundary
    pressure plus the capillary pressure, and under the global pressure
    both at the pressure zero. *)
Theorem dirichletData_compressible_densities {indices : TwoPCommon}
    {satIndices : TwoPSaturationIndices} {problem : BoundaryProblem}
    (saturationType pressureType : Z) (satBound : Q) (B : BoundaryData) :
  pressure_indices_wf ->
  dirichletData saturationType pressureType true satBound = inr B ->
  (pressureType = pw ->
   densityWBound B = wettingDensityAt temperature dirichletPress /\
   densityNWBound B =
   nonwettingDensityAt temperature (dirichletPress + pcBound B)) /\
  (pressureType = pglobal ->
   densityWBound B = wettingDensityAt temperature 0 /\
   densityNWBound B = nonwettingDensityAt temperature 0).
Proof.
  intros Hwf. unfold dirichletData.
  destruct (boundarySaturations saturationType satBound)
    as [e | [satW satNW]]; [discriminate |].
  unfold boundaryPressures. intros HB. split; intros ->.
  - rewrite Z.eqb_refl in HB. by injection HB as <-.
  - rewrite pglobal_is_not_pw, pglobal_is_not_pn in HB by done.
    by injection HB as <-.
Qed.

Lemma dirichletData_compressible_densities_witness :
  exists B,
    dirichletData (indices := dumuxIndices) (satIndices := dumuxSatIndices)
      (problem := demoProblem) 0 2 true (3 # 4) = inr B /\
    densityWBound B = (1000 + 0)%Q /\ densityNWBound B = (800 + 0)%Q.
Proof.
  eexists. split; [reflexivity |].
  apply (proj2 (dirichletData_compressible_densities
                  (indices := dumuxIndices) (satIndices := dumuxSatIndices)
                  (problem := demoProblem) 0 2 (3 # 4) _
                  ltac:(repeat split; discriminate) eq_refl)).
  reflexivity.
Defined.

(** X21.  A boundary face raises only the [RangeError] of the saturation
    type, and only at a Dirichlet pressure boundary: a Neumann boundary
    never reads the saturation type and leaves the stored potentials as
    they are. *)
Theorem boundaryFace_range_error {indices : TwoPCommon}
    {satIndices : TwoPSaturationIndices} {problem : BoundaryProblem}
    (tag : TypeTag) (saturationType pressureType : Z)
    (compressibility satIsDirichlet pressIsDirichlet : bool)
    (dirichletSat saturationI : Q)
    (gravity unitDistVec permeability : list Q) (dist : Q)
    (I : CellData) (Jwetting Jnonwetting storedW storedNW : Q)
    (fv : FaceVelocity) :
  ((exists e,
      boundaryFace tag saturationType pressureType compressibility
        satIsDirichlet pressIsDirichlet dirichletSat saturationI
        gravity unitDistVec permeability dist I Jwetting Jnonwetting
        storedW storedNW fv = inl e) <->
   pressIsDirichlet = true /\ saturationType <> Sw /\ saturationType <> Sn) /\
  (pressIsDirichlet = false ->
   exists f,
     boundaryFace tag saturationType pressureType compressibility
       satIsDirichlet pressIsDirichlet dirichletSat saturationI
       gravity unitDistVec permeability dist I Jwetting Jnonwetting
       storedW storedNW fv = inr (storedW, storedNW, f)).
Proof.
  unfold boundaryFace, dirichletData, boundarySaturations.
  destruct pressIsDirichlet; split.
  - destruct (saturationType =? Sw) eqn:Hw.
    { apply Z.eqb_eq in Hw.
      destruct (boundaryPressures _ _ _), compressibility;
        split; [intros [e [=]] | tauto | intros [e [=]] | tauto]. }
    destruct (saturationType =? Sn) eqn:Hn.
    { apply Z.eqb_eq in Hn.
      destruct (boundaryPressures _ _ _), compressibility;
        split; [intros [e [=]] | tauto | intros [e [=]] | tauto]. }
    apply Z.eqb_neq in Hw, Hn. split; [done | by eexists].
  - discriminate.
  - split; [intros [e [=]] | intros [[=] _]].
  - intros _. by eexists.
Qed.

Lemma boundaryFace_range_error_witness :
  (exists e,
     boundaryFace (indices := dumuxIndices) (satIndices := dumuxSatIndices)
       (problem := demoProblem) (tagOf false 0) 7 0 false true true
       (3 # 4) (1 # 2) demoGravity demoUnitDist demoPermeability 1 cellI
       1 2 0 0 noVelocity = inl e) /\
  (exists f,
     boundaryFace (indices := dumuxIndices) (satIndices := dumuxSatIndices)
       (problem := demoProblem) (tagOf false 0) 7 0 false true false
       (3 # 4) (1 # 2) demoGravity demoUnitDist demoPermeability 1 cellI
       1 2 0 0 noVelocity = inr (0%Q, 0%Q, f)).
Proof.
  split.
  - apply (proj1 (boundaryFace_range_error (indices := dumuxIndices)
                    (satIndices := dumuxSatIndices) (problem := demoProblem)
                    (tagOf false 0) 7 0 false true true (3 # 4) (1 # 2)
                    demoGravity demoUnitDist demoPermeability 1 cellI
                    1 2 0 0 noVelocity)).
    repeat split; discriminate.
  - apply (proj2 (boundaryFace_range_error (indices := dumuxIndices)
                    (satIndices := dumuxSatIndices) (problem := demoProblem)
                    (tagOf false 0) 7 0 false true false (3 # 4) (1 # 2)
                    demoGravity demoUnitDist demoPermeability 1 cellI
                    1 2 0 0 noVelocity)).
    reflexivity.
Defined.

(** ** The three velocity formulations *)

Lemma storeVelocities_vw {indices : TwoPCommon} tag pt vW vNW fv :
  indices_wf -> velocityType_ tag = vw ->
  storeVelocities tag pt vW vNW fv =
  {| velocity := vW; velocitySecondPhase := vNW |}.
Proof.
  intros (Hwn & Hwt & _) Hv. unfold storeVelocities. rewrite Hv.
  by rewrite Z.eqb_refl, (proj2 (Z.eqb_neq _ _) Hwn),
    (proj2 (Z.eqb_neq _ _) Hwt).
Qed.

Lemma storeVelocities_vn {indices : TwoPCommon} tag pt vW vNW fv :
  indices_wf -> velocityType_ tag = vn ->
  storeVelocities tag pt vW vNW fv =
  {| velocity := vNW; velocitySecondPhase := vW |}.
Proof.
  intros (Hwn & _ & Hnt & _) Hv. unfold storeVelocities. rewrite Hv.
  by rewrite Z.eqb_refl, (proj2 (Z.eqb_neq _ _) Hnt).
Qed.

(** X22.  The three formulations store the same two phase velocities of
    an interior face under the pressure of either phase: the
    formulation of the nonwetting phase stores them exchanged, and the
    total one stores their sum and leaves the second velocity as it
    was. *)
Theorem interiorFace_formulations {indices : TwoPCommon}
    (tagW tagN tagT : TypeTag) (pressureType : Z)
    (gravity unitDistVec permeability : list Q) (dist : Q)
    (I J : CellData) (storedW storedNW : Q) (fv : FaceVelocity) :
  indices_wf ->
  pressureType = pw \/ pressureType = pn ->
  velocityType_ tagW = vw -> velocityType_ tagN = vn ->
  velocityType_ tagT = vt ->
  let face tag :=
    (interiorFace tag pressureType gravity unitDistVec permeability dist
       I J storedW storedNW fv).2 in
  velocity (face tagN) = velocitySecondPhase (face tagW) /\
  velocitySecondPhase (face tagN) = velocity (face tagW) /\
  velocity (face tagT) =
    vadd (velocity (face tagW)) (velocitySecondPhase (face tagW)) /\
  velocitySecondPhase (face tagT) = velocitySecondPhase fv.
Proof.
  intros Hwf Hpt HW HN HT. unfold interiorFace.
  destruct (potentials _ _ _ _ _ _ _ _) as [pW pNW]. simpl.
  unfold interiorVelocities.
  assert (vt <> vw /\ vt <> vn) as [Htw Htn].
  { destruct Hwf as (? & ? & ? & _). split; congruence. }
  destruct (pressureType =? pw), (pressureType =? pn),
    (pressureType =? pglobal); simpl;
    rewrite (storeVelocities_vw tagW), (storeVelocities_vn tagN),
      (storeVelocities_vt tagT) by done;
    done.
Qed.

Lemma interiorFace_formulations_witness :
  velocity
    (interiorFace (indices := dumuxIndices) (tagOf false 2) 0 demoGravity
       demoUnitDist demoPermeability 1 cellI cellJpc 0 0 noVelocity).2 =
  vadd
    (velocity
       (interiorFace (indices := dumuxIndices) (tagOf false 0) 0 demoGravity
          demoUnitDist demoPermeability 1 cellI cellJpc 0 0 noVelocity).2)
    (velocitySecondPhase
       (interiorFace (indices := dumuxIndices) (tagOf false 0) 0 demoGravity
          demoUnitDist demoPermeability 1 cellI cellJpc 0 0 noVelocity).2).
Proof.
  assert (@indices_wf dumuxIndices) as Hwf by (repeat split; discriminate).
  exact (proj1 (proj2 (proj2
    (interiorFace_formulations (indices := dumuxIndices)
       (tagOf false 0) (tagOf false 1) (tagOf false 2) 0 demoGravity
       demoUnitDist demoPermeability 1 cellI cellJpc 0 0 noVelocity
       Hwf (or_introl eq_refl) eq_refl eq_refl eq_refl)))).
Defined.

(* ===================================================================== *)
(** * Properties of [start]                                               *)
(* ===================================================================== *)

Section StartFacts.
Import Start.
Context {env : Environment}.

Lemma bindT_inr {A B} (m : T A) (f : A -> T B) tr b :
  bindT m f = (tr, inr b) ->
  exists tr1 a tr2,
    m = (tr1, inr a) /\ f a = (tr2, inr b) /\ tr = tr1 ++ tr2.
Proof.
  unfold bindT. destruct m as [tr1 [e | a]]; [discriminate |].
  destruct (f a) as [tr2 r] eqn:Hf. intros [= <- ->].
  by exists tr1, a, tr2.
Qed.

Lemma bindT_trace {A B} (m : T A) (f : A -> T B) :
  (bindT m f).1 =
  m.1 ++ match m.2 with inr a => (f a).1 | inl _ => [] end.
Proof.
  unfold bindT. destruct m as [tr1 [e | a]]; simpl;
    [by rewrite app_nil_r |].
  by destruct (f a).
Qed.

(** ** Computations whose events all satisfy a predicate *)

Section EmitsOnly.
Variable P : Event -> Prop.

Lemma only_bind {A B} (m : T A) (f : A -> T B) :
  emits_only P m ->
  (forall tr a, m = (tr, inr a) -> emits_only P (f a)) ->
  emits_only P (bindT m f).
Proof.
  unfold emits_only. intros Hm Hf. rewrite bindT_trace.
  apply Forall_app. split; [done |].
  destruct m as [tr [e | a]]; simpl; [constructor | by eapply Hf].
Qed.

Lemma only_ret {A} (a : A) : emits_only P (retT a).
Proof. constructor. Qed.

Lemma only_call ev r : P ev -> emits_only P (call ev r).
Proof. intros H. unfold emits_only. simpl. by repeat constructor. Qed.

Lemma only_callv {A} ev (r : Thrown + A) :
  P ev -> emits_only P (callv ev r).
Proof. intros H. unfold emits_only. simpl. by repeat constructor. Qed.

Lemma only_cout s : P (Cout s) -> emits_only P (cout s).
Proof. intros H. unfold emits_only. simpl. by repeat constructor. Qed.

Lemma only_read {A} (r : Thrown + A) : emits_only P (read r).
Proof. constructor. Qed.

Lemma only_when_false m : emits_only P (when false m).
Proof. constructor. Qed.

Lemma only_when b m : emits_only P m -> emits_only P (when b m).
Proof. destruct b; [done | constructor]. Qed.

Lemma only_registerAllParameters_ :
  (forall name description, P (RegisterParam name description)) ->
  P SimulatorRegisterParameters -> P ThreadManagerRegisterParameters ->
  P EndParamRegistration ->
  emits_only P registerAllParameters_.
Proof.
  intros H1 H2 H3 H4. unfold registerAllParameters_.
  repeat (apply only_bind; [by apply only_call | intros _ _ _]).
  by apply only_call.
Qed.
End EmitsOnly.

Lemma silent_setupParameters_ b :
  setupRank <> 0 ->
  emits_only (fun ev => is_output ev = false) (setupParameters_ b).
Proof.
  intros Hrank. apply Z.eqb_neq in Hrank.
  unfold setupParameters_.
  apply only_bind; [by apply only_when, only_registerAllParameters_ |].
  intros _ _ _. apply only_bind; [by apply only_callv |]. intros _ s _.
  destruct (negb (String.eqb s "")); [apply only_ret |].
  apply only_bind; [apply only_read |]. intros _ file _.
  destruct (negb (String.eqb file "")); [| apply only_ret].
  apply only_bind; [by apply only_call |]. intros _ _ _.
  destruct (negb fileIsOpen).
  - rewrite Hrank.
    apply only_bind; [apply only_when_false |]. intros _ _ _.
    apply only_ret.
  - apply only_bind; [by apply only_call |]. intros _ _ _.
    apply only_ret.
Qed.

Lemma silent_startBody :
  myRank <> 0 -> setupRank <> 0 ->
  emits_only (fun ev => is_output ev = false) startBody.
Proof.
  intros Hrank Hsetup. apply Z.eqb_neq in Hrank.
  unfold startBody.
  apply only_bind; [by apply silent_setupParameters_ |]. intros _ status _.
  destruct (status =? 1); [apply only_ret |].
  destruct (status =? 2); [apply only_ret |].
  apply only_bind; [by apply only_call |]. intros _ _ _.
  apply only_bind; [apply only_read |]. intros _ endTime _.
  rewrite Hrank.
  destruct (Qlt_bool endTime unset).
  { apply only_bind; [apply only_when_false |]. intros _ _ _.
    apply only_ret. }
  apply only_bind; [apply only_read |]. intros _ step _.
  destruct (Qlt_bool step unset).
  { apply only_bind; [apply only_when_false |]. intros _ _ _.
    apply only_ret. }
  apply only_bind; [apply only_when_false |]. intros _ _ _.
  apply only_bind; [apply only_read |]. intros _ printParams _.
  apply only_bind; [unfold printParameters; rewrite Hrank;
                    apply only_when_false |].
  intros _ _ _.
  apply only_bind; [apply only_read |]. intros _ printProps _.
  rewrite andb_false_r.
  apply only_bind; [apply only_when_false |]. intros _ _ _.
  apply only_bind; [by apply only_call |]. intros _ _ _.
  apply only_bind; [by apply only_call |]. intros _ _ _.
  apply only_bind; [apply only_when_false |]. intros _ _ _.
  apply only_ret.
Qed.

(** ** The status of the set-up and of the [try] block *)

Lemma call_inr ev r tr u :
  call ev r = (tr, inr u) -> r = None /\ tr = [ev].
Proof. unfold call. destruct r; by intros [= <-]. Qed.

Lemma callv_inr {A} ev (r : Thrown + A) tr a :
  callv ev r = (tr, inr a) -> r = inr a /\ tr = [ev].
Proof. unfold callv. by intros [= <- ->]. Qed.

Lemma read_inr {A} (r : Thrown + A) tr a :
  read r = (tr, inr a) -> r = inr a /\ tr = [].
Proof. unfold read. by intros [= <- ->]. Qed.

Lemma retT_inr {A} (a b : A) tr :
  retT a = (tr, inr b) -> a = b /\ tr = [].
Proof. unfold retT. by intros [= <- ->]. Qed.

Lemma setupParameters_inv b tr s :
  setupParameters_ b = (tr, inr s) -> s = 1 \/ s = 0.
Proof.
  unfold setupParameters_. intros H.
  apply bindT_inr in H as (? & _ & ? & _ & H & _).
  apply bindT_inr in H as (? & msg & ? & _ & H & _).
  destruct (negb (String.eqb msg ""));
    [apply retT_inr in H as [<- _]; by left |].
  apply bindT_inr in H as (? & file & ? & _ & H & _).
  destruct (negb (String.eqb file ""));
    [| apply retT_inr in H as [<- _]; by right].
  apply bindT_inr in H as (? & _ & ? & _ & H & _).
  destruct (negb fileIsOpen);
    apply bindT_inr in H as (? & ? & ? & _ & H & _);
    apply retT_inr in H as [<- _]; auto.
Qed.
End StartFacts.

(** X23.  Off rank zero [start] writes nothing to the terminal: no
    usage message, no greeting, no parameter or property list and no
    error message, whatever is thrown. *)
Theorem start_silent_off_rank_zero {env : Start.Environment} :
  Start.myRank <> 0 -> Start.setupRank <> 0 ->
  Forall (fun ev => Start.is_output ev = false) Start.start.1.
Proof.
  intros Hrank Hsetup.
  pose proof (silent_startBody Hrank Hsetup) as Hbody.
  unfold emits_only in Hbody. unfold Start.start, Start.handlers.
  apply Z.eqb_neq in Hrank. rewrite Hrank.
  destruct Start.startBody as [tr [e | status]]; simpl in *.
  - destruct (Start.isStd e), (negb Start.duneNewerThan25 && Start.isDune e),
      Start.stdinIsatty; simpl; rewrite ?app_nil_r;
      repeat (constructor; [done |]); done.
  - destruct Start.stdinIsatty; simpl; repeat (constructor; [done |]); done.
Qed.

Lemma start_silent_off_rank_zero_witness :
  Forall (fun ev => Start.is_output ev = false)
    (Start.start (env := Start.duneFailureEnv)).1.
Proof.
  apply (start_silent_off_rank_zero (env := Start.duneFailureEnv));
    discriminate.
Defined.

(** X24.  The set-up of the parameters returns the status 0 or 1 and no
    other: 1 when the parser of the command line returns a text that is
    not empty or when the parameter file that is named cannot be opened,
    and 0 otherwise. *)
Theorem setupParameters_status {env : Start.Environment}
    (registerParams : bool) (tr : list Start.Event) (status : Z) :
  Start.setupParameters_ registerParams = (tr, inr status) ->
  (status = 1 /\
   ((exists msg, Start.parseCommandLineOptions = inr msg /\
       msg <> ""%string) \/
    (exists file, Start.parseCommandLineOptions = inr ""%string /\
       Start.getParameterFile = inr file /\ file <> ""%string /\
       Start.fileIsOpen = false))) \/
  (status = 0 /\ Start.parseCommandLineOptions = inr ""%string /\
   exists file, Start.getParameterFile = inr file /\
     (file = ""%string \/
      (Start.fileIsOpen = true /\ Start.readINITree = None))).
Proof.
  unfold Start.setupParameters_. intros H.
  apply bindT_inr in H as (? & _ & ? & _ & H & _).
  apply bindT_inr in H as (? & msg & ? & Hparse & H & _).
  apply callv_inr in Hparse as [Hparse _].
  destruct (String.eqb msg "") eqn:Hmsg; cbn [negb] in H.
  2:{ apply retT_inr in H as [<- _]. apply String.eqb_neq in Hmsg.
      left. split; [done |]. left. by exists msg. }
  apply String.eqb_eq in Hmsg as ->.
  apply bindT_inr in H as (? & file & ? & Hfile & H & _).
  apply read_inr in Hfile as [Hfile _].
  destruct (String.eqb file "") eqn:Hempty; cbn [negb] in H.
  { apply retT_inr in H as [<- _]. apply String.eqb_eq in Hempty.
    right. split; [done |]. split; [done |]. exists file. auto. }
  apply String.eqb_neq in Hempty.
  apply bindT_inr in H as (? & _ & ? & _ & H & _).
  destruct Start.fileIsOpen eqn:Hopen; cbn [negb] in H.
  - apply bindT_inr in H as (? & ? & ? & Hread & H & _).
    apply call_inr in Hread as [Hread _].
    apply retT_inr in H as [<- _].
    right. split; [done |]. split; [done |]. exists file. auto.
  - apply bindT_inr in H as (? & _ & ? & _ & H & _).
    apply retT_inr in H as [<- _].
    left. split; [done |]. right. by exists file.
Qed.

Lemma setupParameters_status_witness :
  (0 = 1 /\
   ((exists msg,
       Start.parseCommandLineOptions (Environment := Start.quietEnv)
         = inr msg /\ msg <> ""%string) \/
    (exists file,
       Start.parseCommandLineOptions (Environment := Start.quietEnv)
         = inr ""%string /\
       Start.getParameterFile (Environment := Start.quietEnv) = inr file /\
       file <> ""%string /\
       Start.fileIsOpen (Environment := Start.quietEnv) = false))) \/
  (0 = 0 /\
   Start.parseCommandLineOptions (Environment := Start.quietEnv)
     = inr ""%string /\
   exists file,
     Start.getParameterFile (Environment := Start.quietEnv) = inr file /\
     (file = ""%string \/
      (Start.fileIsOpen (Environment := Start.quietEnv) = true /\
       Start.readINITree (Environment := Start.quietEnv) = None))).
Proof.
  eapply (setupParameters_status (env := Start.quietEnv) true _ 0).
  reflexivity.
Defined.

Section StartBody.
Import Start.
Context {env : Environment}.

Lemma when_inr b m tr u :
  when b m = (tr, inr u) ->
  (b = true /\ m = (tr, inr u)) \/ (b = false /\ tr = []).
Proof.
  destruct b; simpl; [by left |]. intros H. apply retT_inr in H as [_ ->].
  by right.
Qed.

Lemma printParameters_inv printParams tr u :
  printParameters printParams = (tr, inr u) -> myRank = 0 ->
  ParametersPrintValues ∈ tr \/ ParametersPrintUnused ∈ tr.
Proof.
  intros H Hrank. unfold printParameters in H.
  rewrite Hrank in H. change (0 =? 0) with true in H.
  unfold when, bindT, call, callv, retT, cout in H.
  destruct (negb (printParams =? 0)),
    ((printParams =? 1) || negb stdoutIsatty),
    parametersPrintValues, parametersPrintUnused as [? | []];
    simpl in H; try discriminate; injection H as <-;
    rewrite ?elem_of_cons; tauto.
Qed.

Lemma printParameters_calls printParams :
  (printCalls (printParameters printParams).1 <= 1)%nat.
Proof.
  unfold printParameters, when, bindT, call, callv, retT, cout.
  destruct (myRank =? 0), (negb (printParams =? 0)),
    ((printParams =? 1) || negb stdoutIsatty),
    parametersPrintValues, parametersPrintUnused as [? | []];
    simpl; unfold printCalls; simpl; lia.
Qed.

Lemma startBody_inv tr s :
  startBody = (tr, inr s) ->
  s = 1 \/
  (s = 0 /\ threadManagerInit = None /\ simulatorConstruct = None /\
   simulatorRun = None /\ SimulatorConstruct ∈ tr /\ SimulatorRun ∈ tr /\
   (exists endTime, getEndTime = inr endTime /\
      Qlt_bool endTime unset = false) /\
   (exists step, getInitialTimeStepSize = inr step /\
      Qlt_bool step unset = false) /\
   (myRank = 0 ->
    ParametersPrintValues ∈ tr \/ ParametersPrintUnused ∈ tr)).
Proof.
  unfold startBody. intros H.
  apply bindT_inr in H as (tr0 & status & ? & Hsetup & H & ->).
  apply setupParameters_inv in Hsetup as [-> | ->].
  { change (1 =? 1) with true in H. cbv iota in H.
    apply retT_inr in H as [<- _]. by left. }
  change (0 =? 1) with false in H. change (0 =? 2) with false in H.
  cbv iota in H.
  apply bindT_inr in H as (? & ? & ? & Hinit & H & ->).
  apply call_inr in Hinit as [Hinit _].
  apply bindT_inr in H as (? & endTime & ? & HendTime & H & ->).
  apply read_inr in HendTime as [HendTime _].
  destruct (Qlt_bool endTime unset) eqn:Hend.
  { apply bindT_inr in H as (? & ? & ? & _ & H & _).
    apply retT_inr in H as [<- _]. by left. }
  apply bindT_inr in H as (? & step & ? & Hstep & H & ->).
  apply read_inr in Hstep as [Hstep _].
  destruct (Qlt_bool step unset) eqn:Hunset.
  { apply bindT_inr in H as (? & ? & ? & _ & H & _).
    apply retT_inr in H as [<- _]. by left. }
  apply bindT_inr in H as (? & ? & ? & _ & H & ->).
  apply bindT_inr in H as (? & printParams & ? & _ & H & ->).
  apply bindT_inr in H as (? & ? & ? & Hprint & H & ->).
  apply bindT_inr in H as (? & printProps & ? & _ & H & ->).
  apply bindT_inr in H as (? & ? & ? & _ & H & ->).
  apply bindT_inr in H as (? & ? & ? & Hctor & H & ->).
  apply call_inr in Hctor as [Hctor ->].
  apply bindT_inr in H as (? & ? & ? & Hrun & H & ->).
  apply call_inr in Hrun as [Hrun ->].
  apply bindT_inr in H as (? & ? & ? & _ & H & ->).
  apply retT_inr in H as [<- _].
  right. split; [done |]. split; [done |]. split; [done |].
  split; [done |].
  split; [| split; [| split; [by exists endTime |
                              split; [by exists step |]]]];
    [rewrite !elem_of_app, !elem_of_cons; tauto .. |].
  intros Hrank.
  destruct (printParameters_inv _ _ _ Hprint Hrank);
    rewrite !elem_of_app; tauto.
Qed.

Lemma handlers_status e :
  (handlers e).2 =
  if isStd e then 1
  else if negb duneNewerThan25 && isDune e then 2 else 3.
Proof.
  unfold handlers.
  by destruct (isStd e), (negb duneNewerThan25 && isDune e).
Qed.

Lemma start_status :
  start.2 =
  match startBody with
  | (_, inr status) => status
  | (_, inl e) => (handlers e).2
  end.
Proof.
  unfold start. destruct startBody as [tr [e | status]]; [| done].
  by destruct (handlers e).
Qed.


End StartBody.



(** X26.  The value of [start] by what is thrown inside the [try]
    block: 0 or 1 when nothing is thrown, 1 for a [std::exception], 2
    for a [Dune::Exception] that is no [std::exception] when built
    against the older Dune, and 3 for anything else. *)
Theorem start_exit_codes {env : Start.Environment} :
  (Start.thrown = None -> Start.start.2 = 0 \/ Start.start.2 = 1) /\
  (forall e, Start.thrown = Some e ->
     Start.start.2 =
     if Start.isStd e then 1
     else if negb Start.duneNewerThan25 && Start.isDune e then 2 else 3) /\
  (Start.start.2 = 2 -> Start.duneNewerThan25 = false).
Proof.
  rewrite start_status. unfold Start.thrown.
  destruct Start.startBody as [tr [e | status]] eqn:Hbody.
  - split; [done |]. rewrite handlers_status. split.
    + by intros ? [= <-].
    + by destruct (Start.isStd e), Start.duneNewerThan25, (Start.isDune e).
  - split; [| split; [done |]].
    + intros _. apply startBody_inv in Hbody as [-> | (-> & _)]; auto.
    + intros ->. by apply startBody_inv in Hbody as [? | (? & _)].
Qed.

Lemma start_exit_codes_witness :
  (Start.start (env := Start.quietEnv)).2 = 0 \/
  (Start.start (env := Start.quietEnv)).2 = 1.
Proof.
  apply (proj1 (start_exit_codes (env := Start.quietEnv))).
  reflexivity.
Defined.

(** The run of [duneFailureEnv]: the simulator throws a Dune exception,
    the older Dune is in use, and [start] returns 2. *)
Example start_dune_failure :
  (Start.start (env := Start.duneFailureEnv)).2 = 2.
Proof. reflexivity. Qed.

Section StartCounts.
Import Start.
Context {env : Environment}.

Lemma printCalls_app tr tr' :
  printCalls (tr ++ tr') = (printCalls tr + printCalls tr')%nat.
Proof. unfold printCalls. by rewrite List.filter_app, length_app. Qed.

Lemma printCalls_bind {A B} (m : T A) (f : A -> T B) :
  printCalls (bindT m f).1 =
  (printCalls m.1 +
   match m.2 with inr a => printCalls (f a).1 | inl _ => 0 end)%nat.
Proof.
  rewrite bindT_trace, printCalls_app. by destruct (m.2).
Qed.

Lemma printCalls_none {A} (m : T A) :
  emits_only (fun ev => is_parameter_list ev = false) m ->
  printCalls m.1 = 0%nat.
Proof.
  unfold emits_only, printCalls. induction 1 as [| ev tr Hev _ IH];
    [done |].
  simpl. by rewrite Hev.
Qed.

Lemma printCalls_elem ev tr :
  ev ∈ tr -> is_parameter_list ev = true -> (1 <= printCalls tr)%nat.
Proof.
  unfold printCalls. induction 1 as [ev tr | ev ev' tr _ IH]; intros Hev;
    simpl.
  - rewrite Hev. simpl. lia.
  - specialize (IH Hev). destruct (is_parameter_list ev'); simpl; lia.
Qed.

(** The events of the set-up are none of the simulator and none of the
    two lists of parameters. *)
Lemma only_setupParameters_ (P : Event -> Prop) b :
  (forall ev, ev <> SimulatorConstruct -> ev <> SimulatorRun ->
     ev <> ParametersPrintValues -> ev <> ParametersPrintUnused -> P ev) ->
  emits_only P (setupParameters_ b).
Proof.
  intros HP. unfold setupParameters_.
  apply only_bind.
  { apply only_when. apply only_registerAllParameters_; intros;
      by apply HP. }
  intros _ _ _. apply only_bind; [by apply only_callv, HP |].
  intros _ s _.
  destruct (negb (String.eqb s "")); [apply only_ret |].
  apply only_bind; [apply only_read |]. intros _ file _.
  destruct (negb (String.eqb file "")); [| apply only_ret].
  apply only_bind; [by apply only_call, HP |]. intros _ _ _.
  destruct (negb fileIsOpen).
  - apply only_bind; [by apply only_when, only_call, HP |]. intros _ _ _.
    apply only_ret.
  - apply only_bind; [by apply only_call, HP |]. intros _ _ _.
    apply only_ret.
Qed.

Ltac calls_simpl :=
  cbn [fst snd printCalls List.filter is_parameter_list length Nat.add].

Ltac calls_step := rewrite printCalls_bind; calls_simpl.

Ltac calls_quiet tac :=
  rewrite printCalls_bind, printCalls_none by tac;
  match goal with
  | |- context [match ?m.2 with inl _ => _ | inr _ => _ end] =>
      destruct (m.2)
  end; calls_simpl; [lia |].

Lemma startBody_calls : (printCalls startBody.1 <= 1)%nat.
Proof.
  unfold startBody.
  calls_quiet ltac:(apply only_setupParameters_; intros []; done).
  destruct (_ =? 1); [unfold retT; calls_simpl; lia |].
  destruct (_ =? 2); [unfold retT; calls_simpl; lia |].
  unfold call, callv, read, cout, retT.
  calls_step. destruct threadManagerInit; [lia |].
  calls_step. destruct getEndTime as [e | endTime]; [lia |].
  destruct (Qlt_bool endTime unset).
  { calls_quiet ltac:(by apply only_when; repeat constructor).
    calls_simpl. lia. }
  calls_step. destruct getInitialTimeStepSize as [e | step]; [lia |].
  destruct (Qlt_bool step unset).
  { calls_quiet ltac:(by apply only_when; repeat constructor).
    calls_simpl. lia. }
  calls_quiet ltac:(by apply only_when; repeat constructor).
  calls_step. destruct getPrintParameters as [e | printParams]; [lia |].
  calls_step.
  pose proof (printParameters_calls printParams) as Hprint.
  destruct (printParameters printParams).2; [calls_simpl; lia |].
  revert Hprint. generalize (printCalls (printParameters printParams).1).
  intros n Hprint.
  calls_step. destruct getPrintProperties as [e | printProps]; [lia |].
  calls_quiet ltac:(by apply only_when, only_when; repeat constructor).
  calls_step. destruct simulatorConstruct; [lia |].
  calls_step. destruct simulatorRun; [lia |].
  calls_quiet ltac:(by apply only_when; repeat constructor).
  calls_simpl. lia.
Qed.

Lemma start_calls : printCalls start.1 = printCalls startBody.1.
Proof.
  unfold start, handlers.
  destruct startBody as [tr [e | status]]; simpl.
  - destruct (isStd e), (negb duneNewerThan25 && isDune e), (myRank =? 0),
      stdinIsatty; unfold printCalls; simpl;
      rewrite ?List.filter_app, ?length_app; simpl; lia.
  - destruct stdinIsatty; unfold printCalls; simpl;
      rewrite ?List.filter_app, ?length_app; simpl; lia.
Qed.
End StartCounts.

Section StartMandatory.
Import Start.
Context {env : Environment}.

End StartMandatory.



(** X28.  [start] prints at most one of the two lists of parameters, the
    values or the unused ones, and in a run on rank zero that returns 0
    it has printed exactly one. *)
Theorem start_prints_one_list {env : Start.Environment} :
  (Start.printCalls Start.start.1 <= 1)%nat /\
  (Start.myRank = 0 -> Start.start.2 = 0 ->
   Start.printCalls Start.start.1 = 1%nat).
Proof.
  pose proof (@startBody_calls env) as Hle.
  rewrite start_calls. split; [done |]. intros Hrank.
  rewrite start_status.
  destruct Start.startBody as [tr [e | s]] eqn:Hs.
  { rewrite handlers_status.
    by destruct (Start.isStd e),
      (negb Start.duneNewerThan25 && Start.isDune e). }
  intros ->. simpl in *.
  apply startBody_inv in Hs
    as [? | (_ & _ & _ & _ & _ & _ & _ & _ & Hprint)]; [done |].
  destruct (Hprint Hrank) as [Hin | Hin];
    apply printCalls_elem in Hin; try done; lia.
Qed.

Lemma start_prints_one_list_witness :
  Start.printCalls (Start.start (env := Start.quietEnv)).1 = 1%nat.
Proof.
  apply (proj2 (start_prints_one_list (env := Start.quietEnv)));
    reflexivity.
Defined.
